(** * HealthLens AI: response parsing, citation extraction, history, errors

    A shallow embedding of the local logic of the HealthLens front end:

    - [services/geminiService.ts]: [analyzeSymptoms] (confidence-line
      parsing, web citation extraction, error wrapping) and
      [findNearbyDoctors] (map citation extraction, error wrapping);
    - [App.tsx]: [handleAnalyze] and [clearHistory] (the capped history);
    - [components/DoctorFinder.tsx]: [handleFindDoctors] (the messages shown
      when the doctor lookup fails).

    JavaScript strings are sequences of UTF-16 code units; every string
    primitive the code uses ([split], [trim], [includes], [match] without
    the [u] flag, [parseInt]) works code unit by code unit, so a string is
    a [list N] here.  The hosted model and the browser are the environment:
    the outcome of each external call is an input of the embedded function. *)

From Stdlib Require Import List NArith ZArith Bool Lia String Ascii.
Import ListNotations.

Set Implicit Arguments.

(** ** JavaScript strings *)

Module JS.

Definition jsstring := list N.

(** Code units of an ASCII literal of the source. *)
Definition lit (s : string) : jsstring :=
  map N_of_ascii (list_ascii_of_string s).

Definition unit_eqb (a b : N) : bool := N.eqb a b.

(** A value used as a condition: a string is truthy unless it is empty. *)
Definition truthy (s : jsstring) : bool :=
  match s with [] => false | _ :: _ => true end.

(** Truthiness of a string that may be [null] or [undefined]. *)
Definition given (f : option jsstring) : bool :=
  match f with Some s => truthy s | None => false end.

(** [a || b] on strings where [a] may be [undefined]. *)
Definition or_else (a : option jsstring) (b : jsstring) : jsstring :=
  match a with
  | Some (c :: s) => c :: s
  | Some [] | None => b
  end.

(** WhiteSpace and LineTerminator code units of ECMAScript: the set that
    [String.prototype.trim], the regular expression class [\s] and the
    leading blank skipping of [parseInt] all share. *)
Definition is_space (c : N) : bool :=
  ((9 <=? c) && (c <=? 13) || (c =? 32) || (c =? 160) || (c =? 5760)
   || (8192 <=? c) && (c <=? 8202) || (c =? 8232) || (c =? 8233)
   || (c =? 8239) || (c =? 8287) || (c =? 12288) || (c =? 65279))%N.

(** The class [\d]. *)
Definition is_digit (c : N) : bool := ((48 <=? c) && (c <=? 57))%N.

(** The class [\w]: letters, digits and the underscore. *)
Definition is_word (c : N) : bool :=
  ((65 <=? c) && (c <=? 90) || (97 <=? c) && (c <=? 122)
   || is_digit c || (c =? 95))%N.

Fixpoint take_while (p : N -> bool) (s : jsstring) : jsstring :=
  match s with
  | c :: s' => if p c then c :: take_while p s' else []
  | [] => []
  end.

Fixpoint drop_while (p : N -> bool) (s : jsstring) : jsstring :=
  match s with
  | c :: s' => if p c then drop_while p s' else s
  | [] => []
  end.

(** [s.trim()]. *)
Definition trim_start (s : jsstring) : jsstring := drop_while is_space s.
Definition trim_end (s : jsstring) : jsstring :=
  rev (drop_while is_space (rev s)).
Definition trim (s : jsstring) : jsstring := trim_end (trim_start s).

(** [strip_prefix p s] is the rest of [s] after a leading [p], if any. *)
Fixpoint strip_prefix (p s : jsstring) : option jsstring :=
  match p, s with
  | [], _ => Some s
  | x :: p', y :: s' => if unit_eqb x y then strip_prefix p' s' else None
  | _ :: _, [] => None
  end.

(** An unanchored search: the first position of [s], from the left, at
    which the anchored matcher [m] succeeds.  The empty suffix is tried
    last, as a regular expression does. *)
Fixpoint search (A : Type) (m : jsstring -> option A) (s : jsstring)
  : option A :=
  match m s with
  | Some x => Some x
  | None => match s with
            | [] => None
            | _ :: s' => search m s'
            end
  end.

(** [s.includes(p)]. *)
Definition includes (p s : jsstring) : bool :=
  match search (strip_prefix p) s with Some _ => true | None => false end.

(** [s.split('\n')] never returns an empty array: the result is the first
    segment and the list of the following ones. *)
Definition LF : N := 10%N.

Fixpoint split_lines (s : jsstring) : jsstring * list jsstring :=
  match s with
  | [] => ([], [])
  | c :: s' =>
      let (l, ls) := split_lines s' in
      if unit_eqb c LF then ([], l :: ls) else (c :: l, ls)
  end.

(** [a.join('\n')]. *)
Fixpoint join_lines (a : list jsstring) : jsstring :=
  match a with
  | [] => []
  | [l] => l
  | l :: ls => l ++ LF :: join_lines ls
  end.

(** A Number as far as this program produces one: an integer or [NaN].
    Every integer met here is the mathematical value of a decimal digit
    sequence; the Number that the engine stores is the double nearest to
    it, which is also what the same digits denote as a numeric literal. *)
Inductive number : Type :=
| NaN : number
| Num : Z -> number.

Definition digit_value (c : N) : Z := Z.of_N c - 48.

Definition decimal (ds : jsstring) : Z :=
  fold_left (fun acc c => 10 * acc + digit_value c)%Z ds 0%Z.

(** [parseInt(s, 10)]: skip leading blanks, read an optional sign, then the
    longest run of decimal digits; [NaN] when that run is empty. *)
Definition parseInt10 (s : jsstring) : number :=
  let s1 := trim_start s in
  let (neg, s2) :=
    match s1 with
    | c :: r => if unit_eqb c 45 then (true, r)
                else if unit_eqb c 43 then (false, r)
                else (false, s1)
    | [] => (false, s1)
    end in
  match take_while is_digit s2 with
  | [] => NaN
  | ds => Num (if neg then - decimal ds else decimal ds)%Z
  end.

End JS.

(** ** Regular expressions of the service

    The two patterns of [analyzeSymptoms] are sequences of three atoms: a
    literal, a greedy [\s*] and a captured greedy [\d+] or [\w+].  They are
    run by a backtracking matcher, the way the ECMAScript pattern semantics
    is written: a greedy quantifier first takes as much as it can and gives
    code units back, one at a time, while the rest of the pattern fails. *)

Module Regex.
Import JS.

Inductive atom : Type :=
| Lit (p : jsstring)            (* literal text *)
| Star (cls : N -> bool)        (* cls*, greedy *)
| CapPlus (cls : N -> bool).    (* (cls+), greedy, captured *)

(** [greedy cls may_stop s k]: take code units of class [cls] from [s],
    longest run first, and call the continuation [k taken rest]; stopping
    before the current code unit is allowed when [may_stop] holds. *)
Fixpoint greedy (A : Type) (cls : N -> bool) (may_stop : bool)
  (s : jsstring) (k : jsstring -> jsstring -> option A) : option A :=
  let stop := if may_stop then k [] s else None in
  match s with
  | c :: s' =>
      if cls c then
        match greedy cls true s' (fun t r => k (c :: t) r) with
        | Some x => Some x
        | None => stop
        end
      else stop
  | [] => stop
  end.

(** Anchored match of a pattern at the start of [s]: the captures, in the
    order of their groups. *)
Fixpoint exec (r : list atom) (s : jsstring) : option (list jsstring) :=
  match r with
  | [] => Some []
  | Lit p :: r' =>
      match strip_prefix p s with
      | Some t => exec r' t
      | None => None
      end
  | Star cls :: r' => greedy cls true s (fun _ rest => exec r' rest)
  | CapPlus cls :: r' =>
      greedy cls false s
        (fun taken rest => option_map (cons taken) (exec r' rest))
  end.

(** [s.match(r)] for a pattern without the [g] flag: the captures of the
    leftmost match, or [None] for [null]. *)
Definition regex_match (r : list atom) (s : jsstring)
  : option (list jsstring) := search (exec r) s.

(** [m[1]] of a successful match of a pattern with one group. *)
Definition group1 (m : option (list jsstring)) : option jsstring :=
  match m with
  | Some (g :: _) => Some g
  | _ => None
  end.

(** What the matcher computes for [marker\s*(cls+)], written without
    backtracking: after the marker, skip every blank, then take the longest
    run of [cls], which must not be empty. *)
Definition capture_after (marker : jsstring) (cls : N -> bool)
  (s : jsstring) : option jsstring :=
  match strip_prefix marker s with
  | None => None
  | Some r =>
      match take_while cls (drop_while is_space r) with
      | [] => None
      | c :: t => Some (c :: t)
      end
  end.

(** The result [x] of a quantifier that took [t], which may be empty only
    when [may_stop] holds. *)
Definition run_or_none (A : Type) (may_stop : bool) (t : jsstring)
  (x : option A) : option A :=
  match t with
  | [] => if may_stop then x else None
  | _ :: _ => x
  end.

End Regex.

(** ** services/geminiService.ts *)

Module Gemini.
Import JS Regex.

Record GroundingSource : Type := {
  title : jsstring;
  uri : jsstring
}.

Record MapSource : Type := {
  m_title : jsstring;
  m_uri : jsstring;
  address : option jsstring     (* [None]: no address on the object *)
}.

Record Confidence : Type := {
  score : number;
  label : jsstring
}.

Record AnalysisResult : Type := {
  content : jsstring;
  confidence : Confidence;
  language : jsstring;
  sources : list GroundingSource
}.

Record DoctorSearchResult : Type := {
  d_content : jsstring;
  mapSources : list MapSource
}.

(** The parts of a [generateContent] response that the service reads.  A
    field that may be missing is an [option]. *)
Record WebChunk : Type := {
  web_uri : option jsstring;
  web_title : option jsstring
}.

Record MapsChunk : Type := {
  maps_uri : option jsstring;
  maps_title : option jsstring;
  maps_address : option jsstring
}.

Record Chunk : Type := {
  web : option WebChunk;
  maps : option MapsChunk
}.

Record GroundingMetadata : Type := {
  groundingChunks : option (list Chunk)
}.

Record Candidate : Type := {
  groundingMetadata : option GroundingMetadata
}.

Record Response : Type := {
  text : option jsstring;
  candidates : option (list Candidate)
}.

(** A thrown value, as far as a handler looks at it: its [message]. *)
Record Thrown : Type := {
  message : option jsstring
}.

(** How a call ends: it returns, or it throws (an [async] function
    resolves, or rejects). *)
Inductive outcome (A : Type) : Type :=
| Returned (a : A)
| Raised (e : Thrown).
Arguments Returned {A} a.
Arguments Raised {A} e.

Definition bind (A B : Type) (m : outcome A) (f : A -> outcome B)
  : outcome B :=
  match m with
  | Returned a => f a
  | Raised e => Raised e
  end.

(** [try { body } catch (error) { handler error }]. *)
Definition try_catch (A : Type) (body : outcome A)
  (handler : Thrown -> outcome A) : outcome A :=
  match body with
  | Returned a => Returned a
  | Raised e => handler e
  end.

Notation "x <- m ;; k" := (bind m (fun x => k))
  (at level 61, m at next level, right associativity).

(** [throw new Error(msg)]. *)
Definition throw_Error (A : Type) (msg : jsstring) : outcome A :=
  Raised {| message := Some msg |}.

(** The SDK behind the service: what constructing the client does, and how
    the one [generateContent] call of the function ends. *)
Record Sdk : Type := {
  new_GoogleGenAI : outcome unit;
  generateContent : outcome Response
}.

(** The two copies of the service differ in the request they build and in
    the last words of one message. *)
Inductive revision : Type := Part000 | Part001.

Definition SCORE_MARKER : jsstring := Eval cbv in lit "CONFIDENCE_SCORE:".
Definition LABEL_MARKER : jsstring := Eval cbv in lit "CONFIDENCE_LABEL:".

Definition NO_ANALYSIS : jsstring :=
  Eval cbv in lit "Unable to generate analysis. Please try again.".
Definition ANALYSIS_FAILED : jsstring :=
  Eval cbv in lit "Failed to analyze symptoms. Please check your connection or try a different image.".
Definition NO_DOCTOR_INFO : jsstring :=
  Eval cbv in lit "Could not find specific doctor information.".
Definition LOCATE_FAILED_000 : jsstring :=
  Eval cbv in lit "Failed to locate nearby doctors. Please ensure location services are enabled in your browser.".
Definition LOCATE_FAILED_001 : jsstring :=
  Eval cbv in lit "Failed to locate nearby doctors. Please ensure location services are enabled.".
Definition LOCATE_FAILED (r : revision) : jsstring :=
  match r with
  | Part000 => LOCATE_FAILED_000
  | Part001 => LOCATE_FAILED_001
  end.

(** [/CONFIDENCE_SCORE:\s*(\d+)/] and [/CONFIDENCE_LABEL:\s*(\w+)/]. *)
Definition SCORE_RE : list atom :=
  [Lit SCORE_MARKER; Star is_space; CapPlus is_digit].
Definition LABEL_RE : list atom :=
  [Lit LABEL_MARKER; Star is_space; CapPlus is_word].

Definition LOW : jsstring := Eval cbv in lit "Low".

(** [{ score: 0, label: "Low" }]. *)
Definition default_confidence : Confidence :=
  {| score := Num 0; label := LOW |}.

(** The confidence parsing of [analyzeSymptoms]: from [fullText] to the
    pair of [confidence] and [content].  Nothing in the inner [try] block
    can throw, so its [catch] is never entered. *)
Definition parse_confidence (fullText : jsstring) : Confidence * jsstring :=
  let (line0, rest) := split_lines fullText in
  let firstLine := trim line0 in
  if includes SCORE_MARKER firstLine then
    match group1 (regex_match SCORE_RE firstLine),
          group1 (regex_match LABEL_RE firstLine) with
    | Some scoreMatch1, Some labelMatch1 =>
        ({| score := parseInt10 scoreMatch1; label := labelMatch1 |},
         trim (join_lines rest))
    | _, _ => (default_confidence, fullText)
    end
  else (default_confidence, fullText).

(** [response.candidates?.[0]?.groundingMetadata?.groundingChunks]. *)
Definition grounding_chunks (response : Response) : option (list Chunk) :=
  match candidates response with
  | Some (c :: _) =>
      match groundingMetadata c with
      | Some g => groundingChunks g
      | None => None
      end
  | _ => None
  end.

(** [chunk.web && chunk.web.uri && chunk.web.title]. *)
Definition web_ok (c : Chunk) : option (jsstring * jsstring) :=
  match web c with
  | Some {| web_uri := Some (u :: us); web_title := Some (t :: ts) |} =>
      Some (t :: ts, u :: us)
  | _ => None
  end.

(** [chunk.maps && chunk.maps.uri && chunk.maps.title]. *)
Definition maps_ok (c : Chunk) : option (jsstring * jsstring * option jsstring) :=
  match maps c with
  | Some {| maps_uri := Some (u :: us); maps_title := Some (t :: ts);
            maps_address := a |} => Some (t :: ts, u :: us, a)
  | _ => None
  end.

(** The [forEach] of [analyzeSymptoms]: [sources.push] on each chunk that
    passes the test. *)
Definition push_source (sources : list GroundingSource) (c : Chunk)
  : list GroundingSource :=
  match web_ok c with
  | Some (t, u) => sources ++ [{| title := t; uri := u |}]
  | None => sources
  end.

Definition extract_sources (chunks : option (list Chunk))
  : list GroundingSource :=
  match chunks with
  | Some cs => fold_left push_source cs []
  | None => []
  end.

(** The [forEach] of [findNearbyDoctors]. *)
Definition push_map_source (mapSources : list MapSource) (c : Chunk)
  : list MapSource :=
  match maps_ok c with
  | Some (t, u, a) =>
      mapSources ++ [{| m_title := t; m_uri := u; address := a |}]
  | None =>
      match web_ok c with
      | Some (t, u) =>
          mapSources ++ [{| m_title := t; m_uri := u; address := None |}]
      | None => mapSources
      end
  end.

Definition extract_map_sources (chunks : option (list Chunk))
  : list MapSource :=
  match chunks with
  | Some cs => fold_left push_map_source cs []
  | None => []
  end.

(** [analyzeSymptoms]: the client is built before the [try] block; the
    request and everything after it are inside.  The prompt and the request
    parts only reach the model, whose answer is [generateContent sdk]. *)
Definition analyzeSymptoms (sdk : Sdk) (symptoms : jsstring)
  (imageBase64 : option jsstring) (language : jsstring)
  : outcome AnalysisResult :=
  _ <- new_GoogleGenAI sdk ;;
  try_catch
    (response <- generateContent sdk ;;
     let fullText := or_else (text response) NO_ANALYSIS in
     let (confidence, content) := parse_confidence fullText in
     let sources := extract_sources (grounding_chunks response) in
     Returned {| content := content; confidence := confidence;
                 language := language; sources := sources |})
    (fun error => throw_Error _ ANALYSIS_FAILED).

(** [findNearbyDoctors]. *)
Definition findNearbyDoctors (r : revision) (sdk : Sdk)
  (symptoms : jsstring) (lat lng : Z) : outcome DoctorSearchResult :=
  _ <- new_GoogleGenAI sdk ;;
  try_catch
    (response <- generateContent sdk ;;
     let text := or_else (text response) NO_DOCTOR_INFO in
     let mapSources := extract_map_sources (grounding_chunks response) in
     Returned {| d_content := text; mapSources := mapSources |})
    (fun error => throw_Error _ (LOCATE_FAILED r)).

End Gemini.

(** ** App.tsx: the history *)

Module App.
Import JS Gemini.

Record HistoryItem : Type := {
  id : jsstring;
  h_symptoms : jsstring;
  timestamp : Z;
  result : AnalysisResult
}.

(** The component state, as its [useState] cells. *)
Record State : Type := {
  symptoms : jsstring;
  isAnalyzing : bool;
  shown : option AnalysisResult;          (* [result] *)
  error : option jsstring;
  history : list HistoryItem;
  selectedLanguage : jsstring;
  selectedImage : option jsstring
}.

(** The [healthlens_history] entry of [localStorage]: absent, or the list
    that was serialized into it. *)
Definition Storage : Type := option (list HistoryItem).

(** What one submission meets outside the component. *)
Record World : Type := {
  sdk : Sdk;
  randomUUID : outcome jsstring;          (* [crypto.randomUUID()] *)
  now : Z;                                (* [Date.now()] *)
  setItem : outcome unit                  (* [localStorage.setItem] *)
}.

Definition IMAGE_SCAN : jsstring := Eval cbv in lit "[Image Scan Analysis]".
Definition WENT_WRONG : jsstring := Eval cbv in lit "Something went wrong.".

Definition set_pending (s : State) : State :=
  {| symptoms := symptoms s; isAnalyzing := true; shown := None;
     error := None; history := history s;
     selectedLanguage := selectedLanguage s;
     selectedImage := selectedImage s |}.

Definition setResult (r : option AnalysisResult) (s : State) : State :=
  {| symptoms := symptoms s; isAnalyzing := isAnalyzing s; shown := r;
     error := error s; history := history s;
     selectedLanguage := selectedLanguage s;
     selectedImage := selectedImage s |}.

Definition setHistory (h : list HistoryItem) (s : State) : State :=
  {| symptoms := symptoms s; isAnalyzing := isAnalyzing s; shown := shown s;
     error := error s; history := h;
     selectedLanguage := selectedLanguage s;
     selectedImage := selectedImage s |}.

Definition setError (e : option jsstring) (s : State) : State :=
  {| symptoms := symptoms s; isAnalyzing := isAnalyzing s; shown := shown s;
     error := e; history := history s;
     selectedLanguage := selectedLanguage s;
     selectedImage := selectedImage s |}.

Definition setIsAnalyzing (b : bool) (s : State) : State :=
  {| symptoms := symptoms s; isAnalyzing := b; shown := shown s;
     error := error s; history := history s;
     selectedLanguage := selectedLanguage s;
     selectedImage := selectedImage s |}.

Definition setSymptoms (t : jsstring) (s : State) : State :=
  {| symptoms := t; isAnalyzing := isAnalyzing s; shown := shown s;
     error := error s; history := history s;
     selectedLanguage := selectedLanguage s;
     selectedImage := selectedImage s |}.

Definition setSelectedLanguage (l : jsstring) (s : State) : State :=
  {| symptoms := symptoms s; isAnalyzing := isAnalyzing s; shown := shown s;
     error := error s; history := history s;
     selectedLanguage := l;
     selectedImage := selectedImage s |}.

Definition setSelectedImage (i : option jsstring) (s : State) : State :=
  {| symptoms := symptoms s; isAnalyzing := isAnalyzing s; shown := shown s;
     error := error s; history := history s;
     selectedLanguage := selectedLanguage s;
     selectedImage := i |}.

(** The [catch] and [finally] blocks of [handleAnalyze]. *)
Definition failed (err : Thrown) (s : State) : State :=
  setIsAnalyzing false (setError (Some (or_else (message err) WENT_WRONG)) s).

(** [handleAnalyze], run to the end of its [finally] block.  [history] is
    the list of the render in which the form was submitted. *)
Definition handleAnalyze (w : World) (st : State * Storage)
  : State * Storage :=
  let (s, store) := st in
  if negb (truthy (trim (symptoms s))) && negb (given (selectedImage s))
  then st
  else
    let s1 := set_pending s in
    match analyzeSymptoms (sdk w) (symptoms s) (selectedImage s)
            (selectedLanguage s) with
    | Raised err => (failed err s1, store)
    | Returned data =>
        let s2 := setResult (Some data) s1 in
        match randomUUID w with
        | Raised err => (failed err s2, store)
        | Returned uuid =>
            let newHistoryItem :=
              {| id := uuid;
                 h_symptoms :=
                   match symptoms s with
                   | c :: t => c :: t
                   | [] => if given (selectedImage s) then IMAGE_SCAN else []
                   end;
                 timestamp := now w;
                 result := data |} in
            let updatedHistory := firstn 10 (newHistoryItem :: history s) in
            let s3 := setHistory updatedHistory s2 in
            match setItem w with
            | Raised err => (failed err s3, store)
            | Returned _ => (setIsAnalyzing false s3, Some updatedHistory)
            end
        end
    end.

(** [clearHistory]. *)
Definition clearHistory (st : State * Storage) : State * Storage :=
  (setHistory [] (fst st), None).

(** What the user can do to the component. *)
Inductive event : Type :=
| Type_symptoms (t : jsstring)
| Pick_language (l : jsstring)
| Pick_image (i : option jsstring)
| Submit (w : World)
| Clear
| Reopen (item : HistoryItem).

Definition step (st : State * Storage) (e : event) : State * Storage :=
  match e with
  | Type_symptoms t => (setSymptoms t (fst st), snd st)
  | Pick_language l => (setSelectedLanguage l (fst st), snd st)
  | Pick_image i => (setSelectedImage i (fst st), snd st)
  | Submit w => handleAnalyze w st
  | Clear => clearHistory st
  | Reopen item =>
      (setSymptoms (h_symptoms item) (setResult (Some (result item)) (fst st)),
       snd st)
  end.

(** A session: events handled one after the other, each one finished
    before the next starts. *)
Definition run (es : list event) (st : State * Storage) : State * Storage :=
  fold_left step es st.

Definition ENGLISH : jsstring := Eval cbv in lit "English".

(** The state of a freshly mounted component with nothing stored. *)
Definition initial : State * Storage :=
  ({| symptoms := []; isAnalyzing := false; shown := None; error := None;
      history := []; selectedLanguage := ENGLISH;
      selectedImage := None |}, None).

End App.

(** ** components/DoctorFinder.tsx *)

Module DoctorFinder.
Import JS Gemini.

Record State : Type := {
  loading : bool;
  result : option DoctorSearchResult;
  error : option jsstring
}.

(** How [getCurrentPosition] calls back: with a position, or with an error
    carrying a numeric [code].  The coordinates are only handed on to the
    request; they are integers here. *)
Inductive PositionOutcome : Type :=
| Position (latitude longitude : Z)
| PositionError (code : Z).

Record Browser : Type := {
  geolocation : bool;                     (* [navigator.geolocation] exists *)
  getCurrentPosition : PositionOutcome
}.

Definition NOT_SUPPORTED : jsstring :=
  Eval cbv in lit "Geolocation is not supported by your browser".
Definition FIND_FAILED : jsstring :=
  Eval cbv in lit "Failed to find doctors nearby.".
Definition NO_LOCATION : jsstring :=
  Eval cbv in lit "Unable to retrieve your location.".
Definition DENIED : jsstring :=
  Eval cbv in lit "Location permission denied. Please allow access.".
Definition UNAVAILABLE : jsstring :=
  Eval cbv in lit "Location unavailable. Please check your connection.".
Definition TIMED_OUT : jsstring :=
  Eval cbv in lit "Location request timed out.".

Definition setLoading (b : bool) (s : State) : State :=
  {| loading := b; result := result s; error := error s |}.
Definition setError (e : option jsstring) (s : State) : State :=
  {| loading := loading s; result := result s; error := e |}.
Definition setResult (r : option DoctorSearchResult) (s : State) : State :=
  {| loading := loading s; result := r; error := error s |}.

(** The error callback handed to [getCurrentPosition]. *)
Definition position_error_message (code : Z) : jsstring :=
  if (code =? 1)%Z then DENIED
  else if (code =? 2)%Z then UNAVAILABLE
  else if (code =? 3)%Z then TIMED_OUT
  else NO_LOCATION.

(** [handleFindDoctors], run until the callback it registered has
    finished. *)
Definition handleFindDoctors (r : revision) (b : Browser) (sdk : Sdk)
  (symptoms : jsstring) (s : State) : State :=
  let s1 := setError None (setLoading true s) in
  if negb (geolocation b) then
    setLoading false (setError (Some NOT_SUPPORTED) s1)
  else
    match getCurrentPosition b with
    | Position latitude longitude =>
        match findNearbyDoctors r sdk symptoms latitude longitude with
        | Returned data => setLoading false (setResult (Some data) s1)
        | Raised err =>
            setLoading false
              (setError (Some (or_else (message err) FIND_FAILED)) s1)
        end
    | PositionError code =>
        setLoading false (setError (Some (position_error_message code)) s1)
    end.

End DoctorFinder.

(** ** The words of the specification *)

Module Spec.
Import JS Regex Gemini.

Definition all (cls : N -> bool) (s : jsstring) : Prop :=
  forallb cls s = true.

(** The first line of a text, and what follows its first line break. *)
Definition first_line (raw : jsstring) : jsstring :=
  take_while (fun c => negb (unit_eqb c LF)) raw.

Fixpoint after_first_line (raw : jsstring) : jsstring :=
  match raw with
  | [] => []
  | c :: r => if unit_eqb c LF then r else after_first_line r
  end.

(** The line [CONFIDENCE_SCORE: <int> | CONFIDENCE_LABEL: <word>]. *)
Definition STRICT_SCORE : jsstring := Eval cbv in lit "CONFIDENCE_SCORE: ".
Definition STRICT_LABEL : jsstring := Eval cbv in lit " | CONFIDENCE_LABEL: ".

Definition strict_line (int word : jsstring) : jsstring :=
  STRICT_SCORE ++ int ++ STRICT_LABEL ++ word.

Definition is_strict (line : jsstring) : Prop :=
  exists int word,
    int <> [] /\ all is_digit int /\ word <> [] /\ all is_word word /\
    line = strict_line int word.

(** [line] contains [marker], then blanks only, then a code unit of [cls]. *)
Definition followed_by (marker : jsstring) (cls : N -> bool)
  (line : jsstring) : Prop :=
  exists pre ws c post,
    line = pre ++ marker ++ ws ++ c :: post /\ all is_space ws /\
    cls c = true.

(** [cap] is a complete run of [cls] that stands in [line] after [marker]
    and blanks. *)
Definition captured (marker : jsstring) (cls : N -> bool)
  (line cap : jsstring) : Prop :=
  exists pre ws post,
    line = pre ++ marker ++ ws ++ cap ++ post /\ all is_space ws /\
    cap <> [] /\ all cls cap /\
    match post with c :: _ => cls c = false | [] => True end.

(** The two searches that the patterns of the service amount to. *)
Definition find_score : jsstring -> option jsstring :=
  search (capture_after SCORE_MARKER is_digit).
Definition find_label : jsstring -> option jsstring :=
  search (capture_after LABEL_MARKER is_word).

(** The line has both parts of a confidence line, wherever they stand. *)
Definition lenient (line : jsstring) : Prop :=
  followed_by SCORE_MARKER is_digit line /\
  followed_by LABEL_MARKER is_word line.

Definition HIGH : jsstring := Eval cbv in lit "High".
Definition MEDIUM : jsstring := Eval cbv in lit "Medium".

(** The confidence of the data model: a score from 0 to 100 and one of the
    three labels. *)
Definition valid_confidence (c : Confidence) : Prop :=
  exists z, score c = Num z /\ (0 <= z <= 100)%Z /\
            In (label c) [HIGH; MEDIUM; LOW].

(** An SDK whose client is built and whose request is answered. *)
Definition answering (response : Response) : Sdk :=
  {| new_GoogleGenAI := Returned tt; generateContent := Returned response |}.

(** A response that carries [raw] as its text and no grounding. *)
Definition saying (raw : jsstring) : Response :=
  {| text := Some raw; candidates := None |}.

End Spec.

(** ** Sessions of the App *)

Module Session.
Import JS Gemini App.

(** The history item that a submission adds, if it adds one: the form is
    not blank, the analysis returns and an identifier is drawn. *)
Definition created (w : World) (s : State) : option HistoryItem :=
  if negb (truthy (trim (symptoms s))) && negb (given (selectedImage s))
  then None
  else
    match analyzeSymptoms (sdk w) (symptoms s) (selectedImage s)
            (selectedLanguage s), randomUUID w with
    | Returned data, Returned uuid =>
        Some {| id := uuid;
                h_symptoms :=
                  match symptoms s with
                  | c :: t => c :: t
                  | [] => if given (selectedImage s) then IMAGE_SCAN else []
                  end;
                timestamp := now w;
                result := data |}
    | _, _ => None
    end.

(** The items added during a session, oldest first. *)
Fixpoint log (es : list event) (st : State * Storage) : list HistoryItem :=
  match es with
  | [] => []
  | e :: es' =>
      match e with
      | Submit w =>
          match created w (fst st) with
          | Some item => [item]
          | None => []
          end
      | _ => []
      end ++ log es' (step st e)
  end.

Definition is_clear (e : event) : bool :=
  match e with Clear => true | _ => false end.

End Session.

(** ** Responses used as examples *)

Module Examples.
Import JS Gemini Spec.

(** The example of the specification: a strict first line and a body. *)
Definition summary_raw : jsstring :=
  Eval cbv in
    lit "CONFIDENCE_SCORE: 85 | CONFIDENCE_LABEL: High" ++ [LF]
    ++ lit "**Summary**: ...".

Definition SUMMARY : jsstring := Eval cbv in lit "**Summary**: ...".

(** A strict first line whose score and label are outside the data model. *)
Definition banana_raw : jsstring :=
  Eval cbv in lit "CONFIDENCE_SCORE: 150 | CONFIDENCE_LABEL: Banana".


(** A first line that is not strict but has both parts, then a body. *)
Definition loose_raw : jsstring :=
  Eval cbv in
    lit "Note CONFIDENCE_SCORE:  85% / CONFIDENCE_LABEL:High!" ++ [LF]
    ++ lit "  Rest easy.  ".


(** A first line with words between the marker and the digits. *)
Definition gap_raw : jsstring :=
  Eval cbv in lit "CONFIDENCE_SCORE: about 85 | CONFIDENCE_LABEL: High".

(** The other example of the specification. *)
Definition plain_raw : jsstring := Eval cbv in lit "No marker here at all".

(** A confidence line that comes second. *)
Definition late_raw : jsstring :=
  Eval cbv in
    lit "Summary first" ++ [LF]
    ++ lit "CONFIDENCE_SCORE: 85 | CONFIDENCE_LABEL: High".

Definition lang : jsstring := Eval cbv in lit "English".

(** Grounding chunks: a place with an address, the same place again, a
    chunk whose [maps] part has no title but whose [web] part is complete,
    and a chunk with a title and no URI. *)
Definition CLINIC : jsstring := Eval cbv in lit "City Clinic".
Definition CLINIC_URI : jsstring := Eval cbv in lit "https://maps.example/clinic".
Definition CLINIC_ADDRESS : jsstring := Eval cbv in lit "1 Main Street".
Definition GUIDE : jsstring := Eval cbv in lit "Health guide".
Definition GUIDE_URI : jsstring := Eval cbv in lit "https://example.org/guide".

Definition place_chunk : Chunk :=
  {| web := None;
     maps := Some {| maps_uri := Some CLINIC_URI; maps_title := Some CLINIC;
                     maps_address := Some CLINIC_ADDRESS |} |}.

Definition web_chunk : Chunk :=
  {| web := Some {| web_uri := Some GUIDE_URI; web_title := Some GUIDE |};
     maps := Some {| maps_uri := Some CLINIC_URI; maps_title := None;
                     maps_address := Some CLINIC_ADDRESS |} |}.

Definition untitled_chunk : Chunk :=
  {| web := Some {| web_uri := None; web_title := Some GUIDE |};
     maps := None |}.

Definition some_chunks : list Chunk :=
  [place_chunk; untitled_chunk; web_chunk; place_chunk].

(** An SDK whose client cannot be built. *)
Definition NO_API_KEY : jsstring :=
  Eval cbv in lit "An API Key must be set when running in a browser".

Definition keyless : Sdk :=
  {| new_GoogleGenAI := Raised {| message := Some NO_API_KEY |};
     generateContent := Returned (saying summary_raw) |}.

(** Browsers: one without geolocation, one whose position request ends
    with a given code, one that gives a position. *)
Definition no_geolocation : DoctorFinder.Browser :=
  {| DoctorFinder.geolocation := false;
     DoctorFinder.getCurrentPosition := DoctorFinder.PositionError 0 |}.

Definition failing_with (code : Z) : DoctorFinder.Browser :=
  {| DoctorFinder.geolocation := true;
     DoctorFinder.getCurrentPosition := DoctorFinder.PositionError code |}.

Definition located : DoctorFinder.Browser :=
  {| DoctorFinder.geolocation := true;
     DoctorFinder.getCurrentPosition := DoctorFinder.Position 48 2 |}.

Definition idle : DoctorFinder.State :=
  {| DoctorFinder.loading := false; DoctorFinder.result := None;
     DoctorFinder.error := None |}.

(** A session: the user types once, then submits twelve times; the
    fourth submission meets a failing request. *)
Definition HEADACHE : jsstring := Eval cbv in lit "headache".

Definition world_of (sdk : Sdk) (n : N) : App.World :=
  {| App.sdk := sdk; App.randomUUID := Returned [n];
     App.now := Z.of_N n; App.setItem := Returned tt |}.

Definition item_of (n : N) : App.HistoryItem :=
  {| App.id := [n]; App.h_symptoms := HEADACHE; App.timestamp := Z.of_N n;
     App.result :=
       {| content := SUMMARY;
          confidence := {| score := Num 85; label := HIGH |};
          language := lang; sources := [] |} |}.

(** An SDK whose request fails. *)
Definition FETCH_FAILED : jsstring := Eval cbv in lit "fetch failed".

Definition offline : Sdk :=
  {| new_GoogleGenAI := Returned tt;
     generateContent := Raised {| message := Some FETCH_FAILED |} |}.

Definition eleven : list App.event :=
  App.Type_symptoms HEADACHE
  :: map (fun n => App.Submit (world_of (answering (saying summary_raw)) n))
       [1; 2; 3]%N
  ++ App.Submit (world_of offline 0)
  :: map (fun n => App.Submit (world_of (answering (saying summary_raw)) n))
       [4; 5; 6; 7; 8; 9; 10; 11]%N.

End Examples.

(** ** App.tsx: the image and the submit button *)

Module Upload.
Import JS Gemini App.

Definition COMMA : N := 44%N.

(** [s.split(sep)] for a separator of one code unit: the first field and
    the list of the following ones. *)
Fixpoint split_on (sep : N) (s : jsstring) : jsstring * list jsstring :=
  match s with
  | [] => ([], [])
  | c :: s' =>
      let (f, fs) := split_on sep s' in
      if unit_eqb c sep then ([], f :: fs) else (c :: f, fs)
  end.

(** [base64String.split(',')[1]]: [None] for [undefined]. *)
Definition second_field (base64String : jsstring) : option jsstring :=
  match snd (split_on COMMA base64String) with
  | x :: _ => Some x
  | [] => None
  end.

(** What the change of the file input brings: no file, or a file whose
    reading ended with [reader.result], [null] when the reading failed. *)
Inductive picked : Type :=
| NoFile
| Read (result : option jsstring).

(** [handleImageUpload], run until [onloadend] has returned.  On a [null]
    result [split] throws inside the callback and no state is set. *)
Definition handleImageUpload (p : picked) (s : State) : State :=
  match p with
  | NoFile => s
  | Read None => s
  | Read (Some base64String) =>
      setSelectedImage (second_field base64String) s
  end.

(** The [disabled] attribute of the submit button. *)
Definition submit_disabled (s : State) : bool :=
  isAnalyzing s
  || (negb (truthy (trim (symptoms s))) && negb (given (selectedImage s))).

(** A text without a comma. *)
Definition no_comma (s : jsstring) : Prop :=
  forallb (fun c => negb (unit_eqb c COMMA)) s = true.

(** The [src] of the preview image. *)
Definition DATA_JPEG : jsstring := Eval cbv in lit "data:image/jpeg;base64,".

Definition preview_src (selectedImage : jsstring) : jsstring :=
  DATA_JPEG ++ selectedImage.

End Upload.

(** ** components/DoctorFinder.tsx: formatContent *)

Module Render.
Import JS.

(** The elements that [formatContent] returns ([key] left aside): a list
    item, an empty block, a paragraph. *)
Inductive element : Type :=
| Li (text : jsstring)
| Spacer
| P (line : jsstring).

Definition STAR : jsstring := Eval cbv in lit "* ".
Definition DASH : jsstring := Eval cbv in lit "- ".

(** [s.startsWith(p)]. *)
Definition startsWith (p s : jsstring) : bool :=
  match strip_prefix p s with Some _ => true | None => false end.

(** The function mapped over the lines. *)
Definition format_line (line : jsstring) : element :=
  if startsWith STAR (trim line) || startsWith DASH (trim line)
  then Li (skipn 2 (trim line))
  else match trim line with
       | [] => Spacer
       | _ :: _ => P line
       end.

Definition formatContent (content : jsstring) : list element :=
  let (l, ls) := split_lines content in
  map format_line (l :: ls).

End Render.

(** ** More words for the properties *)

Module Facts.
Import JS Gemini App.

(** A web citation seen as a map citation. *)
Definition to_map_source (g : GroundingSource) : MapSource :=
  {| m_title := title g; m_uri := uri g; address := None |}.

(** The stored list is the list on screen. *)
Definition synced (st : State * Storage) : Prop :=
  snd st = Some (history (fst st)) \/
  (snd st = None /\ history (fst st) = []).

(** The event does not meet a failing [localStorage.setItem]. *)
Definition storage_ok (e : event) : bool :=
  match e with
  | Submit w => match setItem w with Returned _ => true | Raised _ => false end
  | _ => true
  end.

(** The form is blank: only blanks typed, no image or an empty one. *)
Definition blank (s : State) : bool :=
  negb (truthy (trim (symptoms s))) && negb (given (selectedImage s)).


(** A first line whose label is written in Devanagari. *)
Definition hindi_raw : jsstring :=
  Eval cbv in
    lit "CONFIDENCE_SCORE: 85 | CONFIDENCE_LABEL: "
    ++ [2313; 2330; 2381; 2330]%N ++ [LF] ++ lit "Body".


(** A data URL as [readAsDataURL] gives it, and one without payload. *)
Definition PAYLOAD : jsstring := Eval cbv in lit "/9j/4AAQSkZJRg==".
Definition data_url : jsstring :=
  Eval cbv in lit "data:image/png;base64,/9j/4AAQSkZJRg==".
Definition empty_url : jsstring := Eval cbv in lit "data:;base64,".

(** A recommendation text with bullets. *)
Definition doctors_text : jsstring :=
  Eval cbv in
    lit "See a dermatologist:" ++ [LF] ++ lit "  * City Clinic  " ++ [LF]
    ++ lit "- " ++ [LF] ++ [LF] ++ lit "*Note*".

(** A response without text whose first candidate is grounded. *)
Definition grounded : Response :=
  {| text := Some [];
     candidates :=
       Some [{| groundingMetadata :=
                  Some {| groundingChunks := Some Examples.some_chunks |} |}] |}.

(** A world in which the analysis is answered and the storage is full. *)
Definition QUOTA : jsstring := Eval cbv in lit "The quota has been exceeded.".

Definition full_storage : World :=
  {| sdk := Spec.answering (Spec.saying Examples.summary_raw);
     randomUUID := Returned [9%N]; now := 9;
     setItem := Raised {| message := Some QUOTA |} |}.

Definition typed (t : jsstring) (image : option jsstring) : State :=
  {| symptoms := t; isAnalyzing := false; shown := None; error := None;
     history := []; selectedLanguage := ENGLISH; selectedImage := image |}.

End Facts.

Unset Implicit Arguments.

(** * Properties *)

(** ** Strings *)

Section StringFacts.
Import JS Spec.

Lemma unit_eqb_eq (a b : N) : unit_eqb a b = true <-> a = b.
Proof. apply N.eqb_eq. Qed.

Lemma all_app (cls : N -> bool) (a b : jsstring) :
  all cls (a ++ b) <-> all cls a /\ all cls b.
Proof.
  unfold all. rewrite forallb_app, andb_true_iff. tauto.
Qed.

Lemma all_rev (cls : N -> bool) (a : jsstring) : all cls a -> all cls (rev a).
Proof.
  unfold all. rewrite !forallb_forall. intros H x Hx.
  apply H. now apply in_rev.
Qed.

Lemma take_drop_while (p : N -> bool) (s : jsstring) :
  take_while p s ++ drop_while p s = s.
Proof.
  induction s as [|c s IH]; simpl; [reflexivity|].
  destruct (p c); simpl; [now rewrite IH | reflexivity].
Qed.

Lemma take_while_all (p : N -> bool) (s : jsstring) : all p (take_while p s).
Proof.
  unfold all. induction s as [|c s IH]; simpl; [reflexivity|].
  destruct (p c) eqn:E; simpl; [now rewrite E | reflexivity].
Qed.

Lemma drop_while_all (p : N -> bool) (s : jsstring) :
  all p (take_while p s) /\
  match drop_while p s with c :: _ => p c = false | [] => True end.
Proof.
  split; [apply take_while_all|].
  induction s as [|c s IH]; simpl; [exact I|].
  destruct (p c) eqn:E; [exact IH | exact E].
Qed.

Lemma take_while_app_stop (p : N -> bool) (a b : jsstring) :
  all p a -> match b with c :: _ => p c = false | [] => True end ->
  take_while p (a ++ b) = a.
Proof.
  unfold all. induction a as [|c a IH]; simpl; intros Ha Hb.
  - destruct b as [|c b]; simpl; [reflexivity | now rewrite Hb].
  - apply andb_true_iff in Ha as [Hc Ha]. rewrite Hc. f_equal. now apply IH.
Qed.

Lemma drop_while_app_all (p : N -> bool) (a b : jsstring) :
  all p a -> drop_while p (a ++ b) = drop_while p b.
Proof.
  unfold all. induction a as [|c a IH]; simpl; intros Ha; [reflexivity|].
  apply andb_true_iff in Ha as [Hc Ha]. rewrite Hc. now apply IH.
Qed.

(** Dropping a leading run never eats into a code unit outside the class. *)
Lemma drop_while_keeps (p : N -> bool) (pre : jsstring) (c : N)
  (x : jsstring) :
  p c = false ->
  exists pre', drop_while p (pre ++ c :: x) = pre' ++ c :: x.
Proof.
  intros Hc. induction pre as [|d pre IH]; simpl.
  - rewrite Hc. now exists [].
  - destruct (p d); [exact IH | now exists (d :: pre)].
Qed.

Lemma drop_while_split (p : N -> bool) (s : jsstring) :
  exists a, s = a ++ drop_while p s /\ all p a.
Proof.
  exists (take_while p s). split.
  - symmetry. apply take_drop_while.
  - apply take_while_all.
Qed.

(** A text is its trimmed text between two runs of blanks. *)
Lemma trim_split (s : jsstring) :
  exists a b, s = a ++ trim s ++ b /\ all is_space a /\ all is_space b.
Proof.
  unfold trim, trim_end, trim_start.
  destruct (drop_while_split is_space s) as (a & Ha & Haa).
  destruct (drop_while_split is_space (rev (drop_while is_space s)))
    as (b & Hb & Hbb).
  exists a, (rev b). repeat split.
  - rewrite Ha at 1. f_equal.
    rewrite <- rev_app_distr, <- Hb. now rewrite rev_involutive.
  - exact Haa.
  - now apply all_rev.
Qed.

Lemma trim_keeps (pre mid post : jsstring) (c d : N) :
  is_space c = false -> is_space d = false ->
  exists pre' post',
    trim (pre ++ c :: mid ++ d :: post) = pre' ++ c :: mid ++ d :: post'.
Proof.
  intros Hc Hd. unfold trim, trim_start, trim_end.
  destruct (drop_while_keeps is_space pre c (mid ++ d :: post) Hc)
    as (pre' & ->).
  replace (pre' ++ c :: mid ++ d :: post)
    with ((pre' ++ c :: mid) ++ d :: post)
    by now rewrite <- app_assoc.
  rewrite rev_app_distr. simpl rev at 2.
  rewrite <- app_assoc. simpl app at 2.
  destruct (drop_while_keeps is_space (rev post) d
              (rev (pre' ++ c :: mid)) Hd) as (q & ->).
  exists pre', (rev q).
  rewrite rev_app_distr. simpl. rewrite rev_involutive.
  now rewrite <- !app_assoc.
Qed.

Lemma trim_end_last (x : jsstring) (d : N) :
  is_space d = false -> trim_end (x ++ [d]) = x ++ [d].
Proof.
  intros Hd. unfold trim_end. rewrite rev_app_distr. cbn [rev app drop_while].
  rewrite Hd. change (d :: rev x) with (rev [d] ++ rev x).
  now rewrite <- rev_app_distr, rev_involutive.
Qed.

Lemma trim_fixed (mid : jsstring) (c d : N) :
  is_space c = false -> is_space d = false ->
  trim (c :: mid ++ [d]) = c :: mid ++ [d].
Proof.
  intros Hc Hd. unfold trim, trim_start. cbn [drop_while]. rewrite Hc.
  exact (trim_end_last (c :: mid) d Hd).
Qed.

End StringFacts.

(** ** Lines *)

Section LineFacts.
Import JS Spec.

(** [split] then [join] gives the text back. *)
Lemma join_split_lines (s : jsstring) :
  join_lines (fst (split_lines s) :: snd (split_lines s)) = s.
Proof.
  induction s as [|c s IH]; [reflexivity|].
  cbn [split_lines]. destruct (split_lines s) as [l ls]. cbn [fst snd] in IH.
  destruct (unit_eqb c LF) eqn:E; cbn [fst snd].
  - apply unit_eqb_eq in E. subst c.
    change (join_lines ([] :: l :: ls)) with (LF :: join_lines (l :: ls)).
    now rewrite IH.
  - destruct ls as [|l' ls]; cbn [join_lines] in *; now rewrite <- IH.
Qed.

Lemma split_lines_first (s : jsstring) : fst (split_lines s) = first_line s.
Proof.
  unfold first_line. induction s as [|c s IH]; [reflexivity|].
  cbn [split_lines take_while]. destruct (split_lines s) as [l ls].
  cbn [fst] in IH. destruct (unit_eqb c LF); cbn [fst negb]; [reflexivity|].
  now rewrite IH.
Qed.

Lemma split_lines_rest (s : jsstring) :
  join_lines (snd (split_lines s)) = after_first_line s.
Proof.
  induction s as [|c s IH]; [reflexivity|].
  cbn [split_lines after_first_line].
  pose proof (join_split_lines s) as J.
  destruct (split_lines s) as [l ls]. cbn [fst snd] in *.
  destruct (unit_eqb c LF); cbn [snd]; assumption.
Qed.

Lemma first_line_no_break (s : jsstring) :
  all (fun c => negb (unit_eqb c LF)) (first_line s).
Proof. apply take_while_all. Qed.

(** A text that starts with a line and a line break. *)
Lemma first_line_app (l rest : jsstring) :
  all (fun c => negb (unit_eqb c LF)) l ->
  first_line (l ++ LF :: rest) = l /\ after_first_line (l ++ LF :: rest) = rest.
Proof.
  intros H. split.
  - unfold first_line. now apply take_while_app_stop.
  - induction l as [|c l IH]; [reflexivity|].
    unfold all in H. cbn [forallb] in H. apply andb_true_iff in H as [Hc H].
    cbn [app after_first_line]. apply negb_true_iff in Hc. rewrite Hc.
    now apply IH.
Qed.

End LineFacts.

(** ** Searching *)

Section SearchFacts.
Import JS Spec.

Lemma strip_prefix_app (p r : jsstring) : strip_prefix p (p ++ r) = Some r.
Proof.
  induction p as [|c p IH]; [reflexivity|].
  cbn [app strip_prefix]. unfold unit_eqb at 1. now rewrite N.eqb_refl.
Qed.

Lemma strip_prefix_sound (p s r : jsstring) :
  strip_prefix p s = Some r -> s = p ++ r.
Proof.
  revert s. induction p as [|c p IH]; intros s H.
  - cbn in H. now inversion H.
  - destruct s as [|d s]; cbn [strip_prefix] in H; [discriminate|].
    destruct (unit_eqb c d) eqn:E; [|discriminate].
    apply unit_eqb_eq in E. subst d. cbn [app]. f_equal. now apply IH.
Qed.

Variable A : Type.
Variable m : jsstring -> option A.

(** A search succeeds only at a suffix where the matcher does. *)
Lemma search_sound (s : jsstring) (x : A) :
  search m s = Some x -> exists a b, s = a ++ b /\ m b = Some x.
Proof.
  induction s as [|c s IH]; cbn [search]; intros H.
  - destruct (m []) eqn:E; [|discriminate]. exists [], []. split; [reflexivity | congruence].
  - destruct (m (c :: s)) eqn:E.
    + exists [], (c :: s). split; [reflexivity | congruence].
    + destruct (IH H) as (a & b & -> & Hb). now exists (c :: a), b.
Qed.

(** A search succeeds as soon as the matcher does at some suffix. *)
Lemma search_complete (a b : jsstring) (x : A) :
  m b = Some x -> exists y, search m (a ++ b) = Some y.
Proof.
  intros Hb. induction a as [|c a IH]; cbn [app].
  - exists x. destruct b; cbn [search]; now rewrite Hb.
  - cbn [search]. destruct (m (c :: a ++ b)); eauto.
Qed.

Lemma search_none (s : jsstring) :
  search m s = None -> forall a b, s = a ++ b -> m b = None.
Proof.
  intros H a b ->. destruct (m b) eqn:E; [|reflexivity].
  destruct (search_complete a b a0 E) as (y & Hy). congruence.
Qed.

(** Positions at which the matcher fails are passed over. *)
Lemma search_skip (a b : jsstring) :
  (forall a1 c a2, a = a1 ++ c :: a2 -> m (c :: a2 ++ b) = None) ->
  search m (a ++ b) = search m b.
Proof.
  induction a as [|c a IH]; intros H; [reflexivity|].
  cbn [app search]. rewrite (H [] c a eq_refl). apply IH.
  intros a1 d a2 ->. exact (H (c :: a1) d a2 eq_refl).
Qed.

Lemma search_here (s : jsstring) (x : A) :
  m s = Some x -> search m s = Some x.
Proof. intros H. destruct s; cbn [search]; now rewrite H. Qed.

End SearchFacts.

Section IncludesFacts.
Import JS Spec.

Lemma includes_iff (p s : jsstring) :
  includes p s = true <-> exists a b, s = a ++ p ++ b.
Proof.
  unfold includes. split.
  - destruct (search (strip_prefix p) s) eqn:E; [|discriminate]. intros _.
    destruct (search_sound _ _ _ _ E) as (a & b & -> & Hb).
    exists a, j. now rewrite (strip_prefix_sound _ _ _ Hb).
  - intros (a & b & ->).
    destruct (search_complete _ (strip_prefix p) a (p ++ b) b
                (strip_prefix_app p b)) as (y & ->).
    reflexivity.
Qed.

(** Trimming a text cannot bring a substring into it. *)
Lemma includes_trim (p s : jsstring) :
  includes p (trim s) = true -> includes p s = true.
Proof.
  rewrite !includes_iff. intros (a & b & H).
  destruct (trim_split s) as (u & v & Hs & _). rewrite H in Hs.
  exists (u ++ a), (b ++ v). rewrite Hs. now rewrite <- !app_assoc.
Qed.

End IncludesFacts.

(** ** Character classes *)

Section ClassFacts.
Import JS Spec.

Ltac by_ranges :=
  unfold is_space, is_word, is_digit, unit_eqb in *;
  repeat rewrite ?orb_true_iff, ?orb_false_iff, ?andb_true_iff,
    ?andb_false_iff, ?negb_true_iff, ?N.leb_le, ?N.leb_gt, ?N.eqb_eq,
    ?N.eqb_neq in *;
  lia.

Lemma digit_is_word (c : N) : is_digit c = true -> is_word c = true.
Proof. intros H. by_ranges. Qed.

Lemma word_not_space (c : N) : is_word c = true -> is_space c = false.
Proof. intros H. by_ranges. Qed.

Lemma digit_not_space (c : N) : is_digit c = true -> is_space c = false.
Proof. intros H. apply word_not_space. now apply digit_is_word. Qed.

Lemma space_not_word (c : N) : is_space c = true -> is_word c = false.
Proof.
  intros H. destruct (is_word c) eqn:E; [|reflexivity].
  apply word_not_space in E. congruence.
Qed.

Lemma space_not_digit (c : N) : is_space c = true -> is_digit c = false.
Proof.
  intros H. destruct (is_digit c) eqn:E; [|reflexivity].
  apply digit_not_space in E. congruence.
Qed.

Lemma digit_range (c : N) : is_digit c = true <-> (48 <= c <= 57)%N.
Proof. by_ranges. Qed.

Lemma word_not_break (c : N) : is_word c = true -> unit_eqb c LF = false.
Proof. intros H. unfold LF. by_ranges. Qed.

Lemma all_impl (p q : N -> bool) (s : jsstring) :
  (forall c, p c = true -> q c = true) -> all p s -> all q s.
Proof.
  unfold all. rewrite !forallb_forall. auto.
Qed.

End ClassFacts.

(** ** The backtracking matcher on the two patterns *)

Section RegexFacts.
Import JS Regex Spec.

Variable A : Type.

(** When the rest of the pattern cannot start with a code unit of the
    class, giving code units back never helps: only the longest run is
    handed on. *)
Lemma greedy_longest_only (cls : N -> bool) (s : jsstring) :
  forall (b : bool) (k : jsstring -> jsstring -> option A),
    (forall t c r, cls c = true -> k t (c :: r) = None) ->
    greedy cls b s k =
    run_or_none b (take_while cls s)
      (k (take_while cls s) (drop_while cls s)).
Proof.
  induction s as [|c s IH]; intros b k Hk; [reflexivity|].
  cbn [greedy take_while drop_while]. destruct (cls c) eqn:Hc.
  - rewrite (IH true (fun t r => k (c :: t) r)).
    + cbn [run_or_none].
      assert (E : run_or_none true (take_while cls s)
                    (k (c :: take_while cls s) (drop_while cls s))
                  = k (c :: take_while cls s) (drop_while cls s))
        by now destruct (take_while cls s).
      rewrite E.
      destruct (k (c :: take_while cls s) (drop_while cls s));
        [reflexivity|].
      destruct b; [now apply Hk | reflexivity].
    + intros t d r Hd. now apply Hk.
  - reflexivity.
Qed.

(** When the rest of the pattern always matches, the longest run is kept. *)
Lemma greedy_longest_kept (cls : N -> bool) (s : jsstring) :
  forall (b : bool) (k : jsstring -> jsstring -> option A),
    (forall t r, k t r <> None) ->
    greedy cls b s k =
    run_or_none b (take_while cls s)
      (k (take_while cls s) (drop_while cls s)).
Proof.
  induction s as [|c s IH]; intros b k Hk; [reflexivity|].
  cbn [greedy take_while drop_while]. destruct (cls c) eqn:Hc.
  - rewrite (IH true (fun t r => k (c :: t) r)) by (intros; apply Hk).
    cbn [run_or_none].
    assert (E : run_or_none true (take_while cls s)
                  (k (c :: take_while cls s) (drop_while cls s))
                = k (c :: take_while cls s) (drop_while cls s))
      by now destruct (take_while cls s).
    rewrite E.
    destruct (k (c :: take_while cls s) (drop_while cls s)) eqn:K;
      [reflexivity|].
    now apply Hk in K.
  - reflexivity.
Qed.

End RegexFacts.

Section PatternFacts.
Import JS Regex Spec.

Variable marker : jsstring.
Variable cls : N -> bool.
Hypothesis cls_not_space : forall c, is_space c = true -> cls c = false.

(** The pattern [marker\s*(cls+)], run with backtracking, computes
    [capture_after]. *)
Lemma exec_capture_after (s : jsstring) :
  exec [Lit marker; Star is_space; CapPlus cls] s =
  option_map (fun c => [c]) (capture_after marker cls s).
Proof.
  unfold capture_after. cbn [exec].
  destruct (strip_prefix marker s) as [r|]; [|reflexivity].
  rewrite greedy_longest_only.
  - assert (E : forall x : option (list jsstring),
               run_or_none true (take_while is_space r) x = x)
      by (intros x; now destruct (take_while is_space r)).
    rewrite E. rewrite greedy_longest_kept by (intros t q; discriminate).
    destruct (take_while cls (drop_while is_space r)); reflexivity.
  - intros t c q Hc. cbn [greedy]. now rewrite (cls_not_space c Hc).
Qed.

Lemma search_option_map (B C : Type) (f : B -> C)
  (m : jsstring -> option B) (s : jsstring) :
  search (fun x => option_map f (m x)) s = option_map f (search m s).
Proof.
  induction s as [|c s IH]; cbn [search].
  - now destruct (m []).
  - destruct (m (c :: s)); [reflexivity | exact IH].
Qed.

Lemma search_ext (B : Type) (m m' : jsstring -> option B) (s : jsstring) :
  (forall x, m x = m' x) -> search m s = search m' s.
Proof.
  intros H. induction s as [|c s IH]; cbn [search]; rewrite H;
    [reflexivity | now rewrite IH].
Qed.

(** [s.match(/marker\s*(cls+)/)[1]], when there is a match. *)
Lemma group1_regex_match (s : jsstring) :
  group1 (regex_match [Lit marker; Star is_space; CapPlus cls] s) =
  search (capture_after marker cls) s.
Proof.
  unfold regex_match.
  rewrite (search_ext _ _ (fun x => option_map (fun c => [c])
                                      (capture_after marker cls x)))
    by apply exec_capture_after.
  rewrite search_option_map.
  now destruct (search (capture_after marker cls) s).
Qed.

(** What [capture_after] returns stands in the text as the pattern says. *)
Lemma capture_after_sound (s cap : jsstring) :
  capture_after marker cls s = Some cap ->
  exists ws post,
    s = marker ++ ws ++ cap ++ post /\ all is_space ws /\ cap <> [] /\
    all cls cap /\ match post with c :: _ => cls c = false | [] => True end.
Proof.
  unfold capture_after. destruct (strip_prefix marker s) as [r|] eqn:P;
    [|discriminate].
  apply strip_prefix_sound in P. subst s.
  destruct (drop_while_all cls (drop_while is_space r)) as [Hall Hpost].
  pose proof (take_drop_while cls (drop_while is_space r)) as Hsplit.
  destruct (take_while cls (drop_while is_space r)) as [|c t] eqn:T;
    [discriminate|].
  intros H. inversion H; subst cap. clear H.
  exists (take_while is_space r), (drop_while cls (drop_while is_space r)).
  repeat split.
  - rewrite Hsplit. now rewrite take_drop_while.
  - apply take_while_all.
  - discriminate.
  - exact Hall.
  - exact Hpost.
Qed.

(** [capture_after] succeeds where the marker, blanks and a code unit of
    the class stand. *)
Lemma capture_after_complete (ws post : jsstring) (c : N) :
  all is_space ws -> cls c = true ->
  capture_after marker cls (marker ++ ws ++ c :: post) =
  Some (c :: take_while cls post).
Proof.
  intros Hws Hc. unfold capture_after. rewrite strip_prefix_app.
  rewrite drop_while_app_all by exact Hws.
  assert (Hs : is_space c = false).
  { destruct (is_space c) eqn:E; [|reflexivity].
    apply cls_not_space in E. congruence. }
  cbn [drop_while]. rewrite Hs. cbn [take_while]. now rewrite Hc.
Qed.

End PatternFacts.

(** ** parseInt *)

Section NumberFacts.
Import JS Spec.

Lemma decimal_from (acc : Z) (ds : jsstring) :
  all is_digit ds -> (0 <= acc)%Z ->
  (0 <= fold_left (fun a c => 10 * a + digit_value c) ds acc)%Z.
Proof.
  revert acc. induction ds as [|d ds IH]; intros acc H Hacc; [exact Hacc|].
  unfold all in H. cbn [forallb] in H. apply andb_true_iff in H as [Hd H].
  cbn [fold_left]. apply IH; [exact H|].
  apply digit_range in Hd. unfold digit_value. lia.
Qed.

Lemma decimal_nonneg (ds : jsstring) : all is_digit ds -> (0 <= decimal ds)%Z.
Proof. intros H. apply decimal_from; [exact H | lia]. Qed.

(** On a run of digits [parseInt] returns its decimal value. *)
Lemma parseInt10_digits (ds : jsstring) :
  ds <> [] -> all is_digit ds -> parseInt10 ds = Num (decimal ds).
Proof.
  intros Hne Hds. destruct ds as [|d ds]; [congruence|].
  assert (Hd : is_digit d = true).
  { unfold all in Hds. cbn [forallb] in Hds.
    now apply andb_true_iff in Hds as [Hd _]. }
  unfold parseInt10, trim_start. cbn [drop_while].
  rewrite (digit_not_space d Hd).
  pose proof (proj1 (digit_range d) Hd) as R.
  assert (E1 : unit_eqb d 45 = false) by (apply N.eqb_neq; lia).
  assert (E2 : unit_eqb d 43 = false) by (apply N.eqb_neq; lia).
  rewrite E1, E2.
  replace (take_while is_digit (d :: ds)) with (d :: ds); [reflexivity|].
  symmetry. rewrite <- (app_nil_r (d :: ds)) at 1.
  now apply take_while_app_stop.
Qed.

End NumberFacts.

(** ** The confidence line *)

Section ConfidenceFacts.
Import JS Regex Gemini Spec.

(** [parse_confidence] in terms of the first line and of what follows it. *)
Lemma parse_confidence_eq (fullText : jsstring) :
  parse_confidence fullText =
  let firstLine := trim (first_line fullText) in
  if includes SCORE_MARKER firstLine then
    match find_score firstLine, find_label firstLine with
    | Some scoreMatch1, Some labelMatch1 =>
        ({| score := parseInt10 scoreMatch1; label := labelMatch1 |},
         trim (after_first_line fullText))
    | _, _ => (default_confidence, fullText)
    end
  else (default_confidence, fullText).
Proof.
  unfold parse_confidence, SCORE_RE, LABEL_RE, find_score, find_label.
  pose proof (split_lines_first fullText) as F.
  pose proof (split_lines_rest fullText) as R.
  destruct (split_lines fullText) as [line0 rest]. cbn [fst snd] in F, R.
  rewrite F, R. cbv zeta.
  rewrite (group1_regex_match SCORE_MARKER is_digit space_not_digit).
  rewrite (group1_regex_match LABEL_MARKER is_word space_not_word).
  reflexivity.
Qed.

Variable marker_head : N.
Variable marker_tail : jsstring.
Variable cls : N -> bool.
Hypothesis head_not_space : is_space marker_head = false.
Hypothesis cls_not_space : forall c, is_space c = true -> cls c = false.

Lemma cls_no_space (c : N) : cls c = true -> is_space c = false.
Proof.
  intros H. destruct (is_space c) eqn:E; [|reflexivity].
  apply cls_not_space in E. congruence.
Qed.

Lemma captured_followed_by (line cap : jsstring) :
  captured (marker_head :: marker_tail) cls line cap -> followed_by (marker_head :: marker_tail) cls line.
Proof.
  intros (pre & ws & post & -> & Hws & Hne & Hall & _).
  destruct cap as [|c t]; [congruence|].
  exists pre, ws, c, (t ++ post). repeat split; [exact Hws|].
  unfold all in Hall. cbn [forallb] in Hall.
  now apply andb_true_iff in Hall as [Hc _].
Qed.

(** A successful search returns a capture that stands in the line. *)
Lemma search_captured (line cap : jsstring) :
  search (capture_after (marker_head :: marker_tail) cls) line = Some cap ->
  captured (marker_head :: marker_tail) cls line cap.
Proof.
  intros H. destruct (search_sound _ _ _ _ H) as (pre & s & -> & Hs).
  destruct (capture_after_sound _ _ _ _ Hs)
    as (ws & post & -> & Hws & Hne & Hall & Hpost).
  now exists pre, ws, post.
Qed.

(** The search succeeds on every line that has the marker followed by a
    code unit of the class. *)
Lemma followed_by_search (line : jsstring) :
  followed_by (marker_head :: marker_tail) cls line ->
  exists cap, search (capture_after (marker_head :: marker_tail) cls) line = Some cap.
Proof.
  intros (pre & ws & c & post & -> & Hws & Hc).
  eapply search_complete.
  now apply (capture_after_complete (marker_head :: marker_tail) cls cls_not_space).
Qed.

Lemma followed_by_trim (line : jsstring) :
  followed_by (marker_head :: marker_tail) cls line <-> followed_by (marker_head :: marker_tail) cls (trim line).
Proof.
  split.
  - intros (pre & ws & c & post & -> & Hws & Hc).
    destruct (trim_keeps pre (marker_tail ++ ws) post marker_head c
                head_not_space (cls_no_space c Hc)) as (pre' & post' & E).
    exists pre', ws, c, post'. repeat split; [|exact Hws|exact Hc].
    cbn [app]. rewrite <- !app_assoc in E. exact E.
  - intros (pre & ws & c & post & E & Hws & Hc).
    destruct (trim_split line) as (a & b & Hl & _).
    exists (a ++ pre), ws, c, (post ++ b). repeat split;
      [|exact Hws|exact Hc].
    rewrite Hl, E. now rewrite <- !app_assoc.
Qed.

(** A capture found in the trimmed line stands in the line itself. *)
Lemma captured_untrim (line cap : jsstring) :
  captured (marker_head :: marker_tail) cls (trim line) cap -> captured (marker_head :: marker_tail) cls line cap.
Proof.
  intros (pre & ws & post & E & Hws & Hne & Hall & Hpost).
  destruct (trim_split line) as (a & b & Hl & _ & Hb).
  exists (a ++ pre), ws, (post ++ b). repeat split; try assumption.
  - rewrite Hl, E. now rewrite <- !app_assoc.
  - destruct post as [|c post]; [|exact Hpost].
    destruct b as [|c b]; [exact I|]. cbn [app].
    unfold all in Hb. cbn [forallb] in Hb.
    apply andb_true_iff in Hb as [Hc _]. now apply cls_not_space.
Qed.

End ConfidenceFacts.

(** ** What the parsing commits *)

Section ParseFacts.
Import JS Regex Gemini Spec.

Lemma score_trim (line : jsstring) :
  followed_by SCORE_MARKER is_digit line <->
  followed_by SCORE_MARKER is_digit (trim line).
Proof.
  exact (followed_by_trim 67 (tl SCORE_MARKER) is_digit eq_refl
           space_not_digit line).
Qed.

Lemma label_trim (line : jsstring) :
  followed_by LABEL_MARKER is_word line <->
  followed_by LABEL_MARKER is_word (trim line).
Proof.
  exact (followed_by_trim 67 (tl LABEL_MARKER) is_word eq_refl
           space_not_word line).
Qed.

Lemma followed_by_includes (marker : jsstring) (cls : N -> bool)
  (line : jsstring) :
  followed_by marker cls line -> includes marker line = true.
Proof.
  intros (pre & ws & c & post & -> & _). apply includes_iff.
  now exists pre, (ws ++ c :: post).
Qed.

(** A lenient first line commits a score and a label, both read off that
    line, and the body loses the line. *)
Lemma parse_lenient (fullText : jsstring) :
  lenient (first_line fullText) ->
  exists int word,
    captured SCORE_MARKER is_digit (first_line fullText) int /\
    captured LABEL_MARKER is_word (first_line fullText) word /\
    parse_confidence fullText =
    ({| score := Num (decimal int); label := word |},
     trim (after_first_line fullText)).
Proof.
  intros [Hs Hl]. apply score_trim in Hs. apply label_trim in Hl.
  rewrite parse_confidence_eq. cbv zeta.
  rewrite (followed_by_includes _ _ _ Hs).
  destruct (followed_by_search 67 (tl SCORE_MARKER) is_digit
              space_not_digit _ Hs) as (int & Hint).
  destruct (followed_by_search 67 (tl LABEL_MARKER) is_word
              space_not_word _ Hl) as (word & Hword).
  change (find_score (trim (first_line fullText)) = Some int) in Hint.
  change (find_label (trim (first_line fullText)) = Some word) in Hword.
  rewrite Hint, Hword.
  pose proof (search_captured 67 (tl SCORE_MARKER) is_digit _ _ Hint) as Ci.
  pose proof (search_captured 67 (tl LABEL_MARKER) is_word _ _ Hword) as Cw.
  exists int, word. repeat split.
  - exact (captured_untrim 67 (tl SCORE_MARKER) is_digit space_not_digit
             _ _ Ci).
  - exact (captured_untrim 67 (tl LABEL_MARKER) is_word space_not_word
             _ _ Cw).
  - destruct Ci as (_ & _ & _ & _ & _ & Hne & Hall & _).
    now rewrite parseInt10_digits.
Qed.

(** Any other first line leaves the text whole. *)
Lemma parse_not_lenient (fullText : jsstring) :
  ~ lenient (first_line fullText) ->
  parse_confidence fullText = (default_confidence, fullText).
Proof.
  intros H. rewrite parse_confidence_eq. cbv zeta.
  destruct (includes SCORE_MARKER (trim (first_line fullText)));
    [|reflexivity].
  destruct (find_score (trim (first_line fullText))) as [int|] eqn:Hint;
    [|reflexivity].
  destruct (find_label (trim (first_line fullText))) as [word|] eqn:Hword;
    [|reflexivity].
  exfalso. apply H. split.
  - apply score_trim.
    exact (captured_followed_by 67 (tl SCORE_MARKER) is_digit _ _
             (search_captured 67 (tl SCORE_MARKER) is_digit _ _ Hint)).
  - apply label_trim.
    exact (captured_followed_by 67 (tl LABEL_MARKER) is_word _ _
             (search_captured 67 (tl LABEL_MARKER) is_word _ _ Hword)).
Qed.

Lemma parse_no_marker (fullText : jsstring) :
  includes SCORE_MARKER (first_line fullText) = false ->
  parse_confidence fullText = (default_confidence, fullText).
Proof.
  intros H. apply parse_not_lenient. intros [Hs _].
  apply followed_by_includes in Hs. congruence.
Qed.

Lemma search_step (A : Type) (m : jsstring -> option A) (c : N)
  (s : jsstring) :
  m (c :: s) = None -> search m (c :: s) = search m s.
Proof. intros H. cbn [search]. now rewrite H. Qed.

(** No match of [marker...] starts at a code unit other than its first. *)
Lemma search_skip_other (marker_head : N) (marker_tail : jsstring)
  (cls : N -> bool) (a b : jsstring) :
  all (fun c => negb (unit_eqb marker_head c)) a ->
  search (capture_after (marker_head :: marker_tail) cls) (a ++ b) =
  search (capture_after (marker_head :: marker_tail) cls) b.
Proof.
  induction a as [|c a IH]; intros H; [reflexivity|].
  unfold all in H. cbn [forallb] in H. apply andb_true_iff in H as [Hc H].
  cbn [app]. rewrite search_step; [now apply IH|].
  unfold capture_after. cbn [strip_prefix].
  apply negb_true_iff in Hc. now rewrite Hc.
Qed.

Lemma digits_not_C (int : jsstring) :
  all is_digit int -> all (fun c => negb (unit_eqb 67 c)) int.
Proof.
  apply all_impl. intros c H. apply digit_range in H.
  apply negb_true_iff, N.eqb_neq. lia.
Qed.

Lemma find_label_strict (int word : jsstring) :
  all is_digit int -> word <> [] -> all is_word word ->
  find_label (strict_line int word) = Some word.
Proof.
  intros Hint Hne Hword. unfold find_label, strict_line, STRICT_SCORE.
  cbn [app]. do 18 (rewrite search_step by reflexivity).
  change LABEL_MARKER with (67%N :: tl LABEL_MARKER).
  rewrite search_skip_other by now apply digits_not_C.
  unfold STRICT_LABEL. cbn [app].
  do 3 (rewrite search_step by reflexivity).
  destruct word as [|c word]; [congruence|].
  unfold all in Hword. cbn [forallb] in Hword.
  apply andb_true_iff in Hword as [Hc Hword].
  apply search_here.
  change (67%N :: 79%N :: 78%N :: 70%N :: 73%N :: 68%N :: 69%N :: 78%N
          :: 67%N :: 69%N :: 95%N :: 76%N :: 65%N :: 66%N :: 69%N :: 76%N
          :: 58%N :: 32%N :: c :: word)
    with (LABEL_MARKER ++ [32%N] ++ c :: word).
  change (67%N :: tl LABEL_MARKER) with LABEL_MARKER.
  rewrite (capture_after_complete LABEL_MARKER is_word space_not_word)
    by (try reflexivity; assumption).
  f_equal. f_equal. rewrite <- (app_nil_r word) at 1.
  now apply take_while_app_stop.
Qed.

Lemma find_score_strict (int word : jsstring) :
  int <> [] -> all is_digit int ->
  find_score (strict_line int word) = Some int.
Proof.
  intros Hne Hint. unfold find_score, strict_line.
  destruct int as [|d int]; [congruence|].
  unfold all in Hint. cbn [forallb] in Hint.
  apply andb_true_iff in Hint as [Hd Hint].
  apply search_here.
  change (STRICT_SCORE ++ (d :: int) ++ STRICT_LABEL ++ word)
    with (SCORE_MARKER ++ [32%N] ++ d :: (int ++ STRICT_LABEL ++ word)).
  rewrite (capture_after_complete SCORE_MARKER is_digit space_not_digit)
    by (try reflexivity; assumption).
  f_equal. f_equal. now apply take_while_app_stop.
Qed.

Lemma trim_strict (int word : jsstring) :
  word <> [] -> all is_word word ->
  trim (strict_line int word) = strict_line int word.
Proof.
  intros Hne Hword.
  destruct (exists_last Hne) as (w & d & ->).
  apply all_app in Hword as [_ Hd].
  unfold all in Hd. cbn [forallb] in Hd. rewrite andb_true_r in Hd.
  unfold strict_line.
  replace (STRICT_SCORE ++ int ++ STRICT_LABEL ++ w ++ [d])
    with (67%N :: (tl STRICT_SCORE ++ int ++ STRICT_LABEL ++ w) ++ [d]).
  - apply trim_fixed; [reflexivity | now apply word_not_space].
  - unfold STRICT_SCORE. cbn [tl app]. now rewrite <- !app_assoc.
Qed.


(** Once the client is built and the request answered, [analyzeSymptoms]
    returns what the parsing and the extraction produce. *)
Lemma analyzeSymptoms_answered (sdk : Sdk) (response : Response) (u : unit)
  (symptoms : jsstring) (image : option jsstring) (language : jsstring) :
  new_GoogleGenAI sdk = Returned u ->
  generateContent sdk = Returned response ->
  analyzeSymptoms sdk symptoms image language =
  Returned
    {| content := snd (parse_confidence (or_else (text response) NO_ANALYSIS));
       confidence :=
         fst (parse_confidence (or_else (text response) NO_ANALYSIS));
       language := language;
       sources := extract_sources (grounding_chunks response) |}.
Proof.
  intros Hc Hg. unfold analyzeSymptoms. rewrite Hc, Hg.
  cbn [bind try_catch].
  now destruct (parse_confidence (or_else (text response) NO_ANALYSIS)).
Qed.

End ParseFacts.

(** ** The claims about the confidence line *)

Section ConfidenceClaims.
Import JS Regex Gemini Spec Examples.




Lemma is_strict_head (line : jsstring) :
  is_strict line -> exists t, line = 67%N :: t.
Proof.
  intros (int & word & _ & _ & _ & _ & ->). unfold strict_line, STRICT_SCORE.
  cbn [app]. eauto.
Qed.

Lemma or_else_nonempty (raw fallback : jsstring) :
  raw <> [] -> or_else (Some raw) fallback = raw.
Proof. destruct raw; [congruence | reflexivity]. Qed.

(** C2, as stated, fails twice: the empty text has no strict first line,
    yet the content is the fixed stand-in text, not the empty text; and a
    first line that is not strict but has both parts commits its score and
    label instead of the default. *)
Lemma default_on_mismatch_counterexample :
  (~ is_strict (first_line []) /\
   exists result,
     analyzeSymptoms (answering (saying [])) [] None lang = Returned result /\
     content result <> []) /\
  (~ is_strict (first_line loose_raw) /\
   exists result,
     analyzeSymptoms (answering (saying loose_raw)) [] None lang
     = Returned result /\
     confidence result <> default_confidence /\
     content result <> loose_raw).
Proof.
  split; split.
  - intros H. apply is_strict_head in H as (t & H). discriminate.
  - eexists. split; [reflexivity|]. discriminate.
  - intros H. apply is_strict_head in H as (t & H). discriminate.
  - eexists. split; [reflexivity|]. split; discriminate.
Qed.

(** C2, amended. For a text that is not empty and whose first line does
    not have both parts of a confidence line (the marker
    [CONFIDENCE_SCORE:], blanks, a digit; the marker [CONFIDENCE_LABEL:],
    blanks, a word character), the confidence is exactly
    [{score: 0, label: "Low"}] and the content is the whole text,
    unchanged. *)
Theorem default_on_mismatch (sdk : Sdk) (response : Response) (u : unit)
  (symptoms : jsstring) (image : option jsstring) (language : jsstring)
  (raw : jsstring) :
  new_GoogleGenAI sdk = Returned u ->
  generateContent sdk = Returned response ->
  text response = Some raw ->
  raw <> [] ->
  ~ lenient (first_line raw) ->
  exists result,
    analyzeSymptoms sdk symptoms image language = Returned result /\
    confidence result = default_confidence /\
    content result = raw.
Proof.
  intros Hc Hg Ht Hne Hl.
  rewrite (analyzeSymptoms_answered sdk response u _ _ _ Hc Hg).
  eexists. split; [reflexivity|]. rewrite Ht. cbn [content confidence].
  rewrite or_else_nonempty, parse_not_lenient by assumption. now split.
Qed.

Lemma includes_false_not_followed (marker : jsstring) (cls : N -> bool)
  (line : jsstring) :
  includes marker line = false -> ~ followed_by marker cls line.
Proof.
  intros H F. apply followed_by_includes in F. congruence.
Qed.

Lemma default_on_mismatch_witness :
  exists result,
    analyzeSymptoms (answering (saying late_raw)) [] None lang
    = Returned result /\
    confidence result = default_confidence /\
    content result = late_raw.
Proof.
  apply (default_on_mismatch (answering (saying late_raw)) (saying late_raw)
           tt [] None lang late_raw);
    try reflexivity; try discriminate.
  intros [H _].
  apply (includes_false_not_followed SCORE_MARKER is_digit
           (first_line late_raw)); [reflexivity | exact H].
Defined.





(** C6. Only the first line is looked at: when the first line of the
    model's text lacks [CONFIDENCE_SCORE:], whatever the later lines hold,
    the confidence is the default and the content is the text that was
    parsed, with no line taken out of it (the model's text itself, unless
    that is empty). *)
Theorem first_line_only (sdk : Sdk) (response : Response) (u : unit)
  (symptoms : jsstring) (image : option jsstring) (language : jsstring)
  (raw : jsstring) :
  new_GoogleGenAI sdk = Returned u ->
  generateContent sdk = Returned response ->
  text response = Some raw ->
  includes SCORE_MARKER (first_line raw) = false ->
  exists result,
    analyzeSymptoms sdk symptoms image language = Returned result /\
    confidence result = default_confidence /\
    content result = or_else (Some raw) NO_ANALYSIS /\
    (raw <> [] -> content result = raw).
Proof.
  intros Hc Hg Ht Hi.
  rewrite (analyzeSymptoms_answered sdk response u _ _ _ Hc Hg).
  eexists. split; [reflexivity|]. rewrite Ht. cbn [content confidence].
  destruct raw as [|c raw].
  - repeat split. congruence.
  - rewrite or_else_nonempty by discriminate.
    rewrite parse_no_marker by exact Hi. now repeat split.
Qed.

Lemma first_line_only_witness :
  find_score (after_first_line late_raw) = Some [56%N; 53%N] /\
  exists result,
    analyzeSymptoms (answering (saying late_raw)) [] None lang
    = Returned result /\
    confidence result = default_confidence /\
    content result = late_raw.
Proof.
  split; [reflexivity|].
  destruct (first_line_only (answering (saying late_raw)) (saying late_raw)
              tt [] None lang late_raw eq_refl eq_refl eq_refl eq_refl)
    as (result & Hr & Hc & _ & Hb).
  exists result. repeat split; try assumption. apply Hb. discriminate.
Defined.

(** C9. When the response carries no text, or the empty text, the fixed
    text [Unable to generate analysis. Please try again.] is parsed in its
    place: it is the content of the result, and the confidence is the
    default. *)
Theorem no_text_fallback (sdk : Sdk) (response : Response) (u : unit)
  (symptoms : jsstring) (image : option jsstring) (language : jsstring) :
  new_GoogleGenAI sdk = Returned u ->
  generateContent sdk = Returned response ->
  text response = None \/ text response = Some [] ->
  analyzeSymptoms sdk symptoms image language =
  Returned {| content := NO_ANALYSIS;
              confidence := default_confidence;
              language := language;
              sources := extract_sources (grounding_chunks response) |}.
Proof.
  intros Hc Hg Ht.
  rewrite (analyzeSymptoms_answered sdk response u _ _ _ Hc Hg).
  destruct Ht as [-> | ->]; reflexivity.
Qed.

Lemma no_text_fallback_witness :
  analyzeSymptoms (answering {| text := None; candidates := None |})
    [] None lang =
  Returned {| content := NO_ANALYSIS; confidence := default_confidence;
              language := lang; sources := [] |}
  /\
  analyzeSymptoms (answering (saying [])) [] None lang =
  Returned {| content := NO_ANALYSIS; confidence := default_confidence;
              language := lang; sources := [] |}.
Proof.
  split.
  - exact (no_text_fallback (answering {| text := None; candidates := None |})
             {| text := None; candidates := None |} tt [] None lang
             eq_refl eq_refl (or_introl eq_refl)).
  - exact (no_text_fallback (answering (saying [])) (saying []) tt [] None
             lang eq_refl eq_refl (or_intror eq_refl)).
Defined.



(** Words between the marker and the digits defeat the score pattern:
    nothing is committed and the text stays whole. *)
Lemma gap_not_committed :
  ~ followed_by SCORE_MARKER is_digit (first_line gap_raw) /\
  analyzeSymptoms (answering (saying gap_raw)) [] None lang =
  Returned {| content := gap_raw; confidence := default_confidence;
              language := lang; sources := [] |}.
Proof.
  split; [|reflexivity].
  intros H. apply score_trim in H.
  destruct (followed_by_search 67 (tl SCORE_MARKER) is_digit
              space_not_digit _ H) as (cap & Hcap).
  discriminate.
Qed.

(** The text without any marker of the specification's examples. *)
Lemma plain_text_kept :
  analyzeSymptoms (answering (saying plain_raw)) [] None lang =
  Returned {| content := plain_raw; confidence := default_confidence;
              language := lang; sources := [] |}.
Proof. reflexivity. Qed.



End ConfidenceClaims.

(** ** Citations *)

Section CitationClaims.
Import JS Gemini Spec Examples.

Lemma push_source_from (cs : list Chunk) (acc : list GroundingSource) :
  fold_left push_source cs acc = acc ++ fold_left push_source cs [].
Proof.
  revert acc. induction cs as [|c cs IH]; intros acc; cbn [fold_left].
  - now rewrite app_nil_r.
  - rewrite (IH (push_source acc c)), (IH (push_source [] c)).
    unfold push_source. destruct (web_ok c) as [[t u]|];
      [now rewrite <- app_assoc | reflexivity].
Qed.

Lemma push_map_source_from (cs : list Chunk) (acc : list MapSource) :
  fold_left push_map_source cs acc = acc ++ fold_left push_map_source cs [].
Proof.
  revert acc. induction cs as [|c cs IH]; intros acc; cbn [fold_left].
  - now rewrite app_nil_r.
  - rewrite (IH (push_map_source acc c)), (IH (push_map_source [] c)).
    unfold push_map_source.
    destruct (maps_ok c) as [[[t u] a]|]; [now rewrite <- app_assoc|].
    destruct (web_ok c) as [[t u]|];
      [now rewrite <- app_assoc | reflexivity].
Qed.

Lemma web_ok_nonempty (c : Chunk) (t u : jsstring) :
  web_ok c = Some (t, u) ->
  t <> [] /\ u <> [] /\
  exists w, web c = Some w /\ web_title w = Some t /\ web_uri w = Some u.
Proof.
  unfold web_ok. destruct (web c) as [[[[|a us]|] [[|b ts]|]]|];
    try discriminate.
  intros H. inversion H. repeat split; try discriminate. eauto.
Qed.

Lemma maps_ok_nonempty (c : Chunk) (t u : jsstring) (a : option jsstring) :
  maps_ok c = Some (t, u, a) ->
  t <> [] /\ u <> [] /\
  exists m, maps c = Some m /\ maps_title m = Some t /\
            maps_uri m = Some u /\ maps_address m = a.
Proof.
  unfold maps_ok. destruct (maps c) as [[[[|x us]|] [[|y ts]|] ad]|];
    try discriminate.
  intros H. inversion H. repeat split; try discriminate. eauto.
Qed.


Lemma extract_map_sources_entries (cs : list Chunk) :
  Forall (fun m => m_title m <> [] /\ m_uri m <> [])
    (extract_map_sources (Some cs)).
Proof.
  cbn [extract_map_sources]. induction cs as [|c cs IH]; [constructor|].
  cbn [fold_left]. rewrite push_map_source_from. apply Forall_app. split;
    [|exact IH].
  unfold push_map_source. destruct (maps_ok c) as [[[t u] a]|] eqn:E.
  - destruct (maps_ok_nonempty c t u a E) as (Ht & Hu & _).
    repeat constructor; assumption.
  - destruct (web_ok c) as [[t u]|] eqn:W; [|constructor].
    destruct (web_ok_nonempty c t u W) as (Ht & Hu & _).
    repeat constructor; assumption.
Qed.



End CitationClaims.

(** ** Errors *)

Section AnalysisErrors.
Import JS Gemini Spec Examples.

(** C8, as stated, fails in its last part: the client is built before the
    [try] block, so what its constructor throws leaves [analyzeSymptoms]
    with its own message. *)
Lemma analysis_error_counterexample :
  analyzeSymptoms keyless [] None lang
  = Raised {| message := Some NO_API_KEY |} /\
  NO_API_KEY <> ANALYSIS_FAILED.
Proof. split; [reflexivity | discriminate]. Qed.

(** C8, amended. Once the client is built, every failure of the request
    makes [analyzeSymptoms] throw the one fixed message, and nothing is
    thrown with another message. *)
Theorem analysis_error_fixed (sdk : Sdk) (u : unit) (symptoms : jsstring)
  (image : option jsstring) (language : jsstring) :
  new_GoogleGenAI sdk = Returned u ->
  (forall e, generateContent sdk = Raised e ->
             analyzeSymptoms sdk symptoms image language
             = Raised {| message := Some ANALYSIS_FAILED |}) /\
  (forall e, analyzeSymptoms sdk symptoms image language = Raised e ->
             message e = Some ANALYSIS_FAILED /\
             exists cause, generateContent sdk = Raised cause).
Proof.
  intros Hc. unfold analyzeSymptoms. rewrite Hc. cbn [bind]. split.
  - intros e He. now rewrite He.
  - intros e. destruct (generateContent sdk) as [response|cause].
    + cbn [bind try_catch].
      destruct (parse_confidence (or_else (text response) NO_ANALYSIS)).
      discriminate.
    + cbn [bind try_catch]. unfold throw_Error. intros H. inversion H.
      split; [reflexivity | eauto].
Qed.

Lemma analysis_error_fixed_witness :
  analyzeSymptoms offline [] None lang
  = Raised {| message := Some ANALYSIS_FAILED |}.
Proof.
  destruct (analysis_error_fixed offline tt [] None lang eq_refl) as [H _].
  exact (H _ eq_refl).
Defined.

End AnalysisErrors.

Section DoctorErrors.
Import JS Gemini Spec Examples DoctorFinder.

Lemma findNearbyDoctors_raises (r : revision) (sdk : Sdk)
  (symptoms : jsstring) (lat lng : Z) (e : Thrown) :
  findNearbyDoctors r sdk symptoms lat lng = Raised e ->
  new_GoogleGenAI sdk = Raised e \/
  (message e = Some (LOCATE_FAILED r) /\
   exists cause, generateContent sdk = Raised cause).
Proof.
  unfold findNearbyDoctors. destruct (new_GoogleGenAI sdk) as [u|e0].
  - cbn [bind]. destruct (generateContent sdk) as [response|cause];
      cbn [bind try_catch]; [discriminate|].
    unfold throw_Error. intros H. inversion H. right. eauto.
  - cbn [bind]. intros H. inversion H. now left.
Qed.

Lemma LOCATE_FAILED_nonempty (r : revision) :
  or_else (Some (LOCATE_FAILED r)) FIND_FAILED = LOCATE_FAILED r.
Proof. now destruct r. Qed.

(** C7, as stated, fails: the flow has more than four messages.  A browser
    without geolocation, a position error with a code other than 1, 2 and
    3, and a failed request give three different messages, none of which is
    one of the three named ones; so no choice of a fourth message covers
    them. *)
Lemma four_messages_counterexample :
  error (handleFindDoctors Part001 no_geolocation offline [] idle)
  = Some NOT_SUPPORTED /\
  error (handleFindDoctors Part001 (failing_with 0) offline [] idle)
  = Some NO_LOCATION /\
  error (handleFindDoctors Part001 located offline [] idle)
  = Some LOCATE_FAILED_001 /\
  NoDup [DENIED; UNAVAILABLE; TIMED_OUT; NOT_SUPPORTED; NO_LOCATION;
         LOCATE_FAILED_001] /\
  ~ (exists generic,
       forall b sdk msg,
         error (handleFindDoctors Part001 b sdk [] idle) = Some msg ->
         In msg [DENIED; UNAVAILABLE; TIMED_OUT; generic]).
Proof.
  split; [reflexivity|]. split; [reflexivity|]. split; [reflexivity|].
  split.
  - repeat constructor; cbn [In]; intros H;
      repeat destruct H as [H|H]; try discriminate; exact H.
  - intros (generic & H).
    pose proof (H no_geolocation offline _ eq_refl) as H1.
    pose proof (H (failing_with 0) offline _ eq_refl) as H2.
    cbn [In] in H1, H2.
    destruct H1 as [H1|[H1|[H1|[H1|[]]]]]; try discriminate.
    destruct H2 as [H2|[H2|[H2|[H2|[]]]]]; try discriminate.
    rewrite H1 in H2. discriminate.
Qed.

(** C7, amended. Every failure of the doctor lookup shows one message:
    for a browser without geolocation, for a denied permission (code 1),
    for an unavailable position (code 2), for a timeout (code 3), for any
    other position error, and, for every failure of the request, the
    fixed message of [findNearbyDoctors].  The one message that is not
    fixed is that of an exception thrown while the client is built, shown
    as it is (or as [Failed to find doctors nearby.] when it has none). *)
Theorem doctor_lookup_messages (r : revision) (b : Browser) (sdk : Sdk)
  (symptoms : jsstring) (s : State) (msg : jsstring) :
  error (handleFindDoctors r b sdk symptoms s) = Some msg ->
  (geolocation b = false /\ msg = NOT_SUPPORTED) \/
  (getCurrentPosition b = PositionError 1 /\ msg = DENIED) \/
  (getCurrentPosition b = PositionError 2 /\ msg = UNAVAILABLE) \/
  (getCurrentPosition b = PositionError 3 /\ msg = TIMED_OUT) \/
  ((exists code, getCurrentPosition b = PositionError code /\
                 code <> 1%Z /\ code <> 2%Z /\ code <> 3%Z) /\
   msg = NO_LOCATION) \/
  ((exists cause, generateContent sdk = Raised cause) /\
   msg = LOCATE_FAILED r) \/
  (exists e, new_GoogleGenAI sdk = Raised e /\
             msg = or_else (message e) FIND_FAILED).
Proof.
  unfold handleFindDoctors. destruct (geolocation b) eqn:G; cbn [negb].
  - destruct (getCurrentPosition b) as [lat lng|code] eqn:P.
    + destruct (findNearbyDoctors r sdk symptoms lat lng) as [data|e] eqn:F;
        cbn [error setLoading setError setResult]; [discriminate|].
      intros H. inversion H. clear H.
      destruct (findNearbyDoctors_raises r sdk symptoms lat lng e F)
        as [Hc | (Hm & Hg)].
      * do 6 right. now exists e.
      * do 5 right. left. split; [exact Hg|].
        rewrite Hm. apply LOCATE_FAILED_nonempty.
    + cbn [error setLoading setError]. intros H. inversion H. clear H.
      unfold position_error_message.
      destruct (Z.eqb_spec code 1) as [->|N1]; [now right; left|].
      destruct (Z.eqb_spec code 2) as [->|N2]; [now right; right; left|].
      destruct (Z.eqb_spec code 3) as [->|N3];
        [now right; right; right; left|].
      do 4 right. left. split; [|reflexivity]. now exists code.
  - cbn [error setLoading setError]. intros H. inversion H. now left.
Qed.

Lemma doctor_lookup_messages_witness :
  error (handleFindDoctors Part000 located offline [] idle)
  = Some LOCATE_FAILED_000 /\
  LOCATE_FAILED_000 = LOCATE_FAILED Part000.
Proof.
  split; [reflexivity|].
  destruct (doctor_lookup_messages Part000 located offline [] idle
              LOCATE_FAILED_000 eq_refl)
    as [[G _]|[[P _]|[[P _]|[[P _]|[[(c & P & _) _]|[[_ M]|(e & C & _)]]]]]];
    try discriminate.
  exact M.
Defined.

End DoctorErrors.

(** ** The history *)

Section HistoryClaims.
Import JS Gemini App Session Examples.

(** What a submission does to the history. *)
Lemma handleAnalyze_history (w : World) (st : State * Storage) :
  history (fst (handleAnalyze w st)) =
  match created w (fst st) with
  | Some item => firstn 10 (item :: history (fst st))
  | None => history (fst st)
  end.
Proof.
  destruct st as [s store]. unfold handleAnalyze, created. cbn [fst].
  destruct (negb (truthy (trim (symptoms s)))
            && negb (given (selectedImage s))); [reflexivity|].
  destruct (analyzeSymptoms (sdk w) (symptoms s) (selectedImage s)
              (selectedLanguage s)) as [data|e]; [|reflexivity].
  destruct (randomUUID w) as [uuid|e]; [|reflexivity].
  destruct (setItem w) as [v|e]; reflexivity.
Qed.

Lemma step_history (st : State * Storage) (e : event) :
  history (fst (step st e)) =
  match e with
  | Submit w =>
      match created w (fst st) with
      | Some item => firstn 10 (item :: history (fst st))
      | None => history (fst st)
      end
  | Clear => []
  | _ => history (fst st)
  end.
Proof.
  destruct e; try reflexivity. apply handleAnalyze_history.
Qed.

Lemma step_bounded (st : State * Storage) (e : event) :
  List.length (history (fst st)) <= 10 ->
  List.length (history (fst (step st e))) <= 10.
Proof.
  intros H. rewrite step_history. destruct e; try exact H.
  - destruct (created w (fst st)); [|exact H].
    rewrite length_firstn. lia.
  - cbn [List.length]. lia.
Qed.

Lemma run_bounded (es : list event) (st : State * Storage) :
  List.length (history (fst st)) <= 10 ->
  List.length (history (fst (run es st))) <= 10.
Proof.
  unfold run. revert st. induction es as [|e es IH]; intros st H;
    [exact H|].
  cbn [fold_left]. apply IH. now apply step_bounded.
Qed.

Lemma firstn_app_firstn (A : Type) (n : nat) (a b : list A) :
  firstn n (a ++ firstn n b) = firstn n (a ++ b).
Proof.
  rewrite !firstn_app, firstn_firstn. f_equal. f_equal. lia.
Qed.

(** Without a clearing, the history is the ten most recent items of the
    session, most recent first. *)
Lemma run_history (es : list event) (st : State * Storage) :
  existsb is_clear es = false ->
  List.length (history (fst st)) <= 10 ->
  history (fst (run es st)) =
  firstn 10 (rev (log es st) ++ history (fst st)).
Proof.
  unfold run. revert st.
  induction es as [|e es IH]; intros st Hc Hb.
  - cbn [fold_left log rev app]. symmetry. now apply firstn_all2.
  - cbn [existsb] in Hc. apply orb_false_iff in Hc as [He Hc].
    cbn [fold_left log]. rewrite (IH (step st e) Hc (step_bounded st e Hb)).
    rewrite step_history.
    destruct e; cbn [app]; try reflexivity; [|discriminate].
    destruct (created w (fst st)) as [item|]; [|reflexivity].
    rewrite firstn_app_firstn. cbn [app rev].
    now rewrite <- app_assoc.
Qed.

(** C3. The history never holds more than ten items: whatever the user
    does, starting from a history of at most ten items (the empty one, for
    instance), the list stays within ten.  After eleven analyses that each
    added an item, starting from the empty history and with no clearing,
    the history is the ten most recent items, the most recent first; the
    oldest of the eleven is no longer in it (the items being distinct). *)
Theorem history_capped (es : list event) (st : State * Storage) :
  List.length (history (fst st)) <= 10 ->
  List.length (history (fst (run es st))) <= 10 /\
  (history (fst st) = [] -> existsb is_clear es = false ->
   forall oldest middle newest,
     log es st = oldest :: middle ++ [newest] ->
     List.length middle = 9 ->
     history (fst (run es st)) = newest :: rev middle /\
     hd_error (history (fst (run es st))) = Some newest /\
     (~ In oldest (middle ++ [newest]) ->
      ~ In oldest (history (fst (run es st))))).
Proof.
  intros Hb. split; [now apply run_bounded|].
  intros Hempty Hc oldest middle newest Hlog Hlen.
  assert (E : history (fst (run es st)) = newest :: rev middle).
  { rewrite (run_history es st Hc Hb), Hlog, Hempty, app_nil_r.
    cbn [rev]. rewrite rev_app_distr. cbn [rev app].
    change (newest :: rev middle ++ [oldest])
      with ((newest :: rev middle) ++ [oldest]).
    rewrite firstn_app.
    replace (10 - List.length (newest :: rev middle)) with 0
      by (cbn [List.length]; rewrite length_rev; lia).
    rewrite firstn_O, app_nil_r. apply firstn_all2.
    cbn [List.length]. rewrite length_rev. lia. }
  rewrite E. repeat split.
  intros Hnot Hin. apply Hnot.
  destruct Hin as [<- | Hin].
  - apply in_or_app. right. now left.
  - apply in_or_app. left. now apply in_rev.
Qed.

Lemma history_capped_witness :
  history (fst (run eleven initial)) =
  map item_of [11; 10; 9; 8; 7; 6; 5; 4; 3; 2]%N /\
  ~ In (item_of 1) (history (fst (run eleven initial))).
Proof.
  destruct (history_capped eleven initial ltac:(cbn; lia)) as [_ H].
  destruct (H eq_refl eq_refl (item_of 1)
              (map item_of [2; 3; 4; 5; 6; 7; 8; 9; 10]%N) (item_of 11)
              eq_refl eq_refl) as (E & _ & Hout).
  split; [exact E|]. apply Hout.
  cbn [map app In]. intros Hin.
  repeat (destruct Hin as [Hin|Hin]; [discriminate|]). exact Hin.
Defined.

End HistoryClaims.

(** * More of the code *)

(** ** The confidence line, further *)

Section ParseMore.
Import JS Regex Gemini Spec Examples Facts.


Lemma trim_all_space (s : jsstring) : all is_space s -> trim s = [].
Proof.
  intros H. unfold trim, trim_start.
  rewrite <- (app_nil_r s), drop_while_app_all by exact H. reflexivity.
Qed.


(** What the parsing does with a trimmed first line in the strict format. *)
Lemma parse_trimmed_strict (fullText int word : jsstring) :
  int <> [] -> all is_digit int -> word <> [] -> all is_word word ->
  trim (first_line fullText) = strict_line int word ->
  parse_confidence fullText =
  ({| score := Num (decimal int); label := word |},
   trim (after_first_line fullText)).
Proof.
  intros Hi Hint Hw Hword E. rewrite parse_confidence_eq. cbv zeta.
  rewrite E.
  assert (I : includes SCORE_MARKER (strict_line int word) = true).
  { apply includes_iff. exists [], ([32%N] ++ int ++ STRICT_LABEL ++ word).
    reflexivity. }
  rewrite I, find_score_strict, find_label_strict by assumption.
  now rewrite parseInt10_digits.
Qed.





(** X3. A first line that keeps to the format the prompt asks for, a score
    from 0 to 100 and one of the labels High, Medium and Low, gives a
    confidence of the data model. *)
Theorem conforming_line_valid (fullText int word : jsstring) :
  int <> [] -> all is_digit int -> (decimal int <= 100)%Z ->
  In word [HIGH; MEDIUM; LOW] ->
  first_line fullText = strict_line int word ->
  valid_confidence (fst (parse_confidence fullText)).
Proof.
  intros Hi Hint Hle Hin E.
  assert (Hw : word <> [] /\ all is_word word).
  { cbn [In] in Hin. destruct Hin as [<-|[<-|[<-|[]]]];
      (split; [discriminate | reflexivity]). }
  destruct Hw as [Hw Hword].
  rewrite (parse_trimmed_strict fullText int word) by
    (try assumption; rewrite E; now apply trim_strict).
  cbn [fst]. exists (decimal int). repeat split; try assumption.
  now apply decimal_nonneg.
Qed.

Lemma conforming_line_valid_witness :
  valid_confidence (fst (parse_confidence summary_raw)).
Proof.
  apply (conforming_line_valid summary_raw [56; 53]%N HIGH).
  - discriminate.
  - reflexivity.
  - unfold decimal, digit_value. cbn. lia.
  - now left.
  - reflexivity.
Defined.

(** X4. When nothing but blanks follows a first line that commits, the content
    is empty: the stand-in text only guards against an empty response. *)
Theorem empty_body (fullText : jsstring) :
  lenient (first_line fullText) ->
  all is_space (after_first_line fullText) ->
  snd (parse_confidence fullText) = [].
Proof.
  intros Hl Hs. destruct (parse_lenient fullText Hl) as (int & word & _ & _ & E).
  rewrite E. cbn [snd]. now apply trim_all_space.
Qed.

Lemma banana_is_lenient : lenient (first_line banana_raw).
Proof.
  split.
  - exists [], [32%N], 49%N, (skipn 19 banana_raw).
    split; [vm_compute; reflexivity | split; reflexivity].
  - exists (firstn 24 banana_raw), [32%N], 66%N, (skipn 43 banana_raw).
    split; [vm_compute; reflexivity | split; reflexivity].
Defined.

Lemma empty_body_witness : snd (parse_confidence banana_raw) = [].
Proof. exact (empty_body banana_raw banana_is_lenient eq_refl). Defined.



Lemma take_while_none (p : N -> bool) (s : jsstring) :
  all (fun c => negb (p c)) s -> take_while p s = [].
Proof.
  destruct s as [|c s]; [reflexivity|]. unfold all. cbn [forallb take_while].
  intros H. apply andb_true_iff in H as [Hc _].
  apply negb_true_iff in Hc. now rewrite Hc.
Qed.

Lemma drop_while_keeps_all (p q : N -> bool) (s : jsstring) :
  all q s -> all q (drop_while p s).
Proof.
  unfold all. induction s as [|c s IH]; [reflexivity|].
  cbn [drop_while]. destruct (p c); [|trivial].
  cbn [forallb]. intros H. apply andb_true_iff in H as [_ H]. now apply IH.
Qed.

Lemma label_fails_here (label : jsstring) :
  all (fun c => negb (is_word c)) label ->
  capture_after LABEL_MARKER is_word (LABEL_MARKER ++ 32%N :: label) = None.
Proof.
  intros H. unfold capture_after. rewrite strip_prefix_app.
  cbn [drop_while]. change (is_space 32) with true. cbv iota.
  rewrite take_while_none; [reflexivity|].
  now apply drop_while_keeps_all.
Qed.

Lemma find_label_none (int label : jsstring) :
  all is_digit int -> all (fun c => negb (is_word c)) label ->
  find_label (strict_line int label) = None.
Proof.
  intros Hint Hlabel. unfold find_label, strict_line, STRICT_SCORE.
  cbn [app]. do 18 (rewrite search_step by reflexivity).
  change LABEL_MARKER with (67%N :: tl LABEL_MARKER).
  rewrite search_skip_other by now apply digits_not_C.
  unfold STRICT_LABEL. cbn [app].
  do 3 (rewrite search_step by reflexivity).
  rewrite search_step by exact (label_fails_here label Hlabel).
  do 17 (rewrite search_step by reflexivity).
  rewrite <- (app_nil_r label), search_skip_other; [reflexivity|].
  revert Hlabel. apply all_impl. intros c Hc.
  apply negb_true_iff. apply negb_true_iff in Hc.
  destruct (unit_eqb 67 c) eqn:E; [|reflexivity].
  apply unit_eqb_eq in E. subst c. discriminate.
Qed.

(** X6. The score and the label are committed together or not at all: when the
    label after [CONFIDENCE_LABEL:] has no letter, digit or underscore of
    ASCII (a label written in Devanagari, Chinese, Japanese or Arabic
    script, say), a well-formed score is left aside with it, the
    confidence is the default and the first line stays in the content. *)
Theorem unreadable_label (fullText int label : jsstring) :
  trim (first_line fullText) = strict_line int label ->
  all is_digit int -> all (fun c => negb (is_word c)) label ->
  parse_confidence fullText = (default_confidence, fullText).
Proof.
  intros E Hint Hlabel. rewrite parse_confidence_eq. cbv zeta. rewrite E.
  rewrite (find_label_none int label Hint Hlabel).
  destruct (includes SCORE_MARKER (strict_line int label)); [|reflexivity].
  now destruct (find_score (strict_line int label)).
Qed.

Lemma unreadable_label_witness :
  find_score (first_line hindi_raw) = Some [56; 53]%N /\
  parse_confidence hindi_raw = (default_confidence, hindi_raw).
Proof.
  split; [reflexivity|].
  apply (unreadable_label hindi_raw [56; 53]%N [2313; 2330; 2381; 2330]%N);
    reflexivity.
Defined.

End ParseMore.

(** ** Citations, further *)

Section CitationMore.
Import JS Gemini Spec Examples Facts.

Lemma push_one_bounds (c : Chunk) :
  List.length (push_source [] c) <= List.length (push_map_source [] c) /\
  List.length (push_map_source [] c) <= 1.
Proof.
  unfold push_source, push_map_source.
  destruct (maps_ok c) as [[[t u] a]|], (web_ok c) as [[t' u']|];
    cbn [List.length app]; lia.
Qed.

(** X7. Each chunk gives at most one entry, and every chunk that gives a web
    citation to the analysis gives a map citation to the doctor lookup. *)
Theorem citation_counts (chunks : list Chunk) :
  List.length (extract_sources (Some chunks))
  <= List.length (extract_map_sources (Some chunks)) /\
  List.length (extract_map_sources (Some chunks)) <= List.length chunks.
Proof.
  cbn [extract_sources extract_map_sources].
  induction chunks as [|c cs [IH1 IH2]]; [cbn; lia|].
  cbn [fold_left]. rewrite push_source_from, push_map_source_from.
  rewrite !length_app. cbn [List.length].
  destruct (push_one_bounds c). lia.
Qed.

(** X8. On chunks without a usable [maps] part the doctor lookup cites what
    the analysis cites, without addresses. *)
Theorem web_only_citations (chunks : list Chunk) :
  Forall (fun c => maps_ok c = None) chunks ->
  extract_map_sources (Some chunks) =
  map to_map_source (extract_sources (Some chunks)).
Proof.
  cbn [extract_sources extract_map_sources].
  induction 1 as [|c cs Hc _ IH]; [reflexivity|].
  cbn [fold_left]. rewrite push_source_from, push_map_source_from.
  rewrite map_app, IH. f_equal.
  unfold push_source, push_map_source. rewrite Hc.
  now destruct (web_ok c) as [[t u]|].
Qed.

Lemma web_only_citations_witness :
  extract_map_sources (Some [web_chunk; untitled_chunk; web_chunk]) =
  map to_map_source
    (extract_sources (Some [web_chunk; untitled_chunk; web_chunk])).
Proof.
  apply (web_only_citations [web_chunk; untitled_chunk; web_chunk]).
  repeat constructor.
Defined.

(** X9. What [findNearbyDoctors] returns never has an empty content: it is the
    text of the response, or the fixed text that stands in for a missing or
    empty one; and its citations are those of the first candidate, each
    with a title and a URI. *)
Theorem doctors_found (r : revision) (sdk : Sdk) (symptoms : jsstring)
  (lat lng : Z) (d : DoctorSearchResult) :
  findNearbyDoctors r sdk symptoms lat lng = Returned d ->
  d_content d <> [] /\
  Forall (fun m => m_title m <> [] /\ m_uri m <> []) (mapSources d) /\
  exists response,
    generateContent sdk = Returned response /\
    d_content d = or_else (text response) NO_DOCTOR_INFO /\
    mapSources d = extract_map_sources (grounding_chunks response).
Proof.
  unfold findNearbyDoctors.
  destruct (new_GoogleGenAI sdk) as [u|e]; [|discriminate].
  destruct (generateContent sdk) as [response|e]; [|discriminate].
  cbn [bind try_catch]. intros H. inversion H. subst d. clear H.
  cbn [d_content mapSources]. repeat split.
  - destruct (text response) as [[|c t]|]; discriminate.
  - destruct (grounding_chunks response) as [cs|]; [|constructor].
    apply extract_map_sources_entries.
  - exists response. repeat split.
Qed.

Lemma doctors_found_witness :
  findNearbyDoctors Part001 (answering grounded) [] 48 2 =
  Returned
    {| d_content := NO_DOCTOR_INFO;
       mapSources :=
         [{| m_title := CLINIC; m_uri := CLINIC_URI;
             address := Some CLINIC_ADDRESS |};
          {| m_title := GUIDE; m_uri := GUIDE_URI; address := None |};
          {| m_title := CLINIC; m_uri := CLINIC_URI;
             address := Some CLINIC_ADDRESS |}] |} /\
  NO_DOCTOR_INFO <> [].
Proof.
  split; [reflexivity|].
  exact (proj1 (doctors_found Part001 (answering grounded) [] 48 2 _
                  eq_refl)).
Defined.

End CitationMore.

(** ** The doctor finder, further *)

Section FinderMore.
Import JS Gemini Spec Examples DoctorFinder.

Lemma or_else_filled (a : option jsstring) (b : jsstring) :
  b <> [] -> or_else a b <> [].
Proof. intros H. destruct a as [[|c t]|]; cbn; [exact H | discriminate | exact H]. Qed.

(** X10. However a doctor lookup ends, the spinner is off.  It ends without an
    error exactly when a position was obtained and [findNearbyDoctors]
    returned, and the result shown is then the new one; when it ends with
    an error, the message is not empty and the result shown before stays
    on screen. *)
Theorem lookup_ends (r : revision) (b : Browser) (sdk : Sdk)
  (symptoms : jsstring) (s : State) :
  let s' := handleFindDoctors r b sdk symptoms s in
  loading s' = false /\
  (error s' = None <->
   exists lat lng data,
     geolocation b = true /\ getCurrentPosition b = Position lat lng /\
     findNearbyDoctors r sdk symptoms lat lng = Returned data /\
     result s' = Some data) /\
  (forall msg, error s' = Some msg -> msg <> [] /\ result s' = result s).
Proof.
  cbv zeta. unfold handleFindDoctors.
  destruct (geolocation b); cbn [negb].
  - destruct (getCurrentPosition b) as [lat lng|code].
    + destruct (findNearbyDoctors r sdk symptoms lat lng) as [data|e] eqn:F;
        cbn [loading error result setLoading setError setResult].
      * split; [reflexivity|]. split; [|discriminate].
        split; [|reflexivity]. intros _. exists lat, lng, data.
        repeat split. exact F.
      * split; [reflexivity|]. split.
        -- split; [discriminate|].
           intros (lat' & lng' & data & _ & P & F' & _).
           inversion P. subst lat' lng'. congruence.
        -- intros msg H. inversion H. split; [|reflexivity].
           apply or_else_filled. discriminate.
    + cbn [loading error result setLoading setError].
      split; [reflexivity|]. split.
      * split; [discriminate|].
        intros (lat & lng & data & _ & P & _). discriminate.
      * intros msg H. inversion H. split; [|reflexivity].
        unfold position_error_message.
        destruct (code =? 1)%Z; [discriminate|].
        destruct (code =? 2)%Z; [discriminate|].
        destruct (code =? 3)%Z; discriminate.
  - cbn [loading error result setLoading setError].
    split; [reflexivity|]. split.
    + split; [discriminate|].
      intros (lat & lng & data & G & _). discriminate.
    + intros msg H. inversion H. split; [discriminate | reflexivity].
Qed.

Lemma lookup_ends_witness :
  handleFindDoctors Part001 (failing_with 3) offline []
    {| loading := false;
       result := Some {| d_content := NO_DOCTOR_INFO; mapSources := [] |};
       error := None |} =
  {| loading := false;
     result := Some {| d_content := NO_DOCTOR_INFO; mapSources := [] |};
     error := Some TIMED_OUT |} /\
  TIMED_OUT <> [].
Proof.
  split; [reflexivity|].
  destruct (lookup_ends Part001 (failing_with 3) offline []
              {| loading := false;
                 result := Some {| d_content := NO_DOCTOR_INFO;
                                   mapSources := [] |};
                 error := None |}) as (_ & _ & H).
  exact (proj1 (H TIMED_OUT eq_refl)).
Defined.

End FinderMore.

(** ** The App, further *)

Section AppMore.
Import JS Gemini Spec App Session Examples Upload Facts.


Lemma created_symptoms (w : World) (s : State) (item : HistoryItem) :
  created w s = Some item -> h_symptoms item <> [].
Proof.
  unfold created.
  destruct (symptoms s) as [|c t] eqn:S.
  - change (trim []) with (@nil N). cbn [truthy negb andb].
    destruct (given (selectedImage s)); cbn [negb]; [|discriminate].
    destruct (analyzeSymptoms (sdk w) [] (selectedImage s)
                (selectedLanguage s)); [|discriminate].
    destruct (randomUUID w); [|discriminate].
    intros H. inversion H. discriminate.
  - destruct (negb (truthy (trim (c :: t)))
              && negb (given (selectedImage s))); [discriminate|].
    destruct (analyzeSymptoms (sdk w) (c :: t) (selectedImage s)
                (selectedLanguage s)); [|discriminate].
    destruct (randomUUID w); [|discriminate].
    intros H. inversion H. discriminate.
Qed.

Lemma Forall_firstn_of (A : Type) (P : A -> Prop) (n : nat) (l : list A) :
  Forall P l -> Forall P (firstn n l).
Proof.
  intros H. rewrite <- (firstn_skipn n l) in H.
  now apply Forall_app in H as [H _].
Qed.

Lemma NoDup_firstn_of (A : Type) (n : nat) (l : list A) :
  NoDup l -> NoDup (firstn n l).
Proof.
  intros H. rewrite <- (firstn_skipn n l) in H.
  now apply NoDup_app_remove_r in H.
Qed.

(** X11. A submission of a form that is not blank always ends: the spinner is
    off and the form keeps what was typed.  If no result is shown, an error
    is, and neither the history nor the storage has changed; an error
    message is never empty; and if no error is shown, the result on screen
    is that of the analysis, it heads the history, and the storage holds
    the history. *)
Theorem submission_ends (w : World) (s : State) (store : Storage) :
  blank s = false ->
  let s' := fst (handleAnalyze w (s, store)) in
  let store' := snd (handleAnalyze w (s, store)) in
  isAnalyzing s' = false /\
  symptoms s' = symptoms s /\ selectedImage s' = selectedImage s /\
  (forall msg, error s' = Some msg -> msg <> []) /\
  (shown s' = None ->
   error s' <> None /\ history s' = history s /\ store' = store) /\
  (error s' = None ->
   exists data item,
     analyzeSymptoms (sdk w) (symptoms s) (selectedImage s)
       (selectedLanguage s) = Returned data /\
     shown s' = Some data /\ result item = data /\
     history s' = firstn 10 (item :: history s) /\
     store' = Some (history s')).
Proof.
  intros B. cbv zeta. unfold handleAnalyze. unfold blank in B. rewrite B.
  assert (F : forall e : Thrown, or_else (message e) WENT_WRONG <> []).
  { intros e. destruct (message e) as [[|c t]|]; discriminate. }
  destruct (analyzeSymptoms (sdk w) (symptoms s) (selectedImage s)
              (selectedLanguage s)) as [data|e].
  - destruct (randomUUID w) as [uuid|e].
    + destruct (setItem w) as [u|e];
        cbn [fst snd failed set_pending setResult setHistory setError
             setIsAnalyzing isAnalyzing symptoms selectedImage error shown
             history].
      * repeat split; intros; try congruence.
        eexists. eexists. repeat split. reflexivity.
      * repeat split; intros; try congruence; inversion H; apply F.
    + cbn [fst snd failed set_pending setResult setHistory setError
           setIsAnalyzing isAnalyzing symptoms selectedImage error shown
           history].
      repeat split; intros; try congruence; inversion H; apply F.
  - cbn [fst snd failed set_pending setResult setHistory setError
         setIsAnalyzing isAnalyzing symptoms selectedImage error shown
         history].
    repeat split; intros; try congruence; inversion H; apply F.
Qed.

Lemma submission_ends_witness :
  handleAnalyze (world_of offline 7) (typed HEADACHE None, None) =
  ({| symptoms := HEADACHE; isAnalyzing := false; shown := None;
      error := Some ANALYSIS_FAILED; history := [];
      selectedLanguage := ENGLISH; selectedImage := None |}, None) /\
  ANALYSIS_FAILED <> [].
Proof.
  split; [reflexivity|].
  destruct (submission_ends (world_of offline 7) (typed HEADACHE None) None
              eq_refl) as (_ & _ & _ & H & _).
  exact (H ANALYSIS_FAILED eq_refl).
Defined.

(** X12. A blank form, symptoms made of blanks only and no image or an empty
    one, is not submitted: the handler leaves the state and the storage as
    they are, whatever the world.  The submit button is enabled exactly
    when no analysis is running and the form is not blank. *)
Theorem blank_form_ignored (s : State) :
  (blank s = true ->
   forall w store, handleAnalyze w (s, store) = (s, store)) /\
  (submit_disabled s = false <-> isAnalyzing s = false /\ blank s = false).
Proof.
  split.
  - intros B w store. unfold handleAnalyze. unfold blank in B. now rewrite B.
  - unfold submit_disabled, blank. apply orb_false_iff.
Qed.

Lemma blank_form_ignored_witness :
  handleAnalyze (world_of offline 7)
    (typed [32; 10; 9]%N (Some []), Some [item_of 1]) =
  (typed [32; 10; 9]%N (Some []), Some [item_of 1]).
Proof.
  exact (proj1 (blank_form_ignored (typed [32; 10; 9]%N (Some [])))
           eq_refl (world_of offline 7) (Some [item_of 1])).
Defined.

Lemma step_synced (st : State * Storage) (e : event) :
  storage_ok e = true -> synced st -> synced (step st e).
Proof.
  destruct st as [s store]. intros Hok H.
  destruct e; try exact H.
  - cbn [step]. unfold handleAnalyze.
    destruct (negb (truthy (trim (symptoms s)))
              && negb (given (selectedImage s))); [exact H|].
    destruct (analyzeSymptoms (sdk w) (symptoms s) (selectedImage s)
                (selectedLanguage s)) as [data|e]; [|exact H].
    destruct (randomUUID w) as [uuid|e]; [|exact H].
    cbn [storage_ok] in Hok.
    destruct (setItem w) as [u|e]; [|discriminate].
    now left.
  - right. now split.
Qed.

(** X13. As long as no write to the storage fails, the stored list is the list
    on screen after every event: submissions, failed or not, and
    clearings keep the two together. *)
Theorem storage_follows_history (es : list event) (st : State * Storage) :
  forallb storage_ok es = true -> synced st -> synced (run es st).
Proof.
  unfold run. revert st. induction es as [|e es IH]; intros st Hok H;
    [exact H|].
  cbn [forallb] in Hok. apply andb_true_iff in Hok as [He Hok].
  cbn [fold_left]. apply IH; [exact Hok|]. now apply step_synced.
Qed.

Lemma storage_follows_history_witness : synced (run eleven initial).
Proof.
  exact (storage_follows_history eleven initial eq_refl
           (or_intror (conj eq_refl eq_refl))).
Defined.

(** X14. No item of the history has an empty symptoms text: an item made from
    an image alone is filed under [[Image Scan Analysis]]. *)
Theorem items_have_symptoms (es : list event) (st : State * Storage) :
  Forall (fun item => h_symptoms item <> []) (history (fst st)) ->
  Forall (fun item => h_symptoms item <> [])
    (history (fst (run es st))).
Proof.
  unfold run. revert st. induction es as [|e es IH]; intros st H;
    [exact H|].
  cbn [fold_left]. apply IH. rewrite step_history.
  destruct e; try exact H; [|constructor].
  destruct (created w (fst st)) as [item|] eqn:C; [|exact H].
  apply Forall_firstn_of. constructor; [|exact H].
  exact (created_symptoms w (fst st) item C).
Qed.

Lemma items_have_symptoms_witness :
  history (fst (run [Pick_image (Some PAYLOAD);
                     Submit (world_of (answering (saying summary_raw)) 5)]
                  initial))
  = [{| id := [5%N]; h_symptoms := IMAGE_SCAN; timestamp := 5;
        result := result (item_of 5) |}] /\
  Forall (fun item => h_symptoms item <> [])
    (history (fst (run [Pick_image (Some PAYLOAD);
                        Submit (world_of (answering (saying summary_raw)) 5)]
                     initial))).
Proof.
  split; [reflexivity|].
  apply (items_have_symptoms
           [Pick_image (Some PAYLOAD);
            Submit (world_of (answering (saying summary_raw)) 5)] initial).
  constructor.
Defined.

(** X15. With identifiers that differ, as [crypto.randomUUID] gives them, the
    items of the history have different identifiers. *)
Theorem history_keys_differ (es : list event) (st : State * Storage) :
  history (fst st) = [] -> existsb is_clear es = false ->
  NoDup (map id (log es st)) ->
  NoDup (map id (history (fst (run es st)))).
Proof.
  intros He Hc Hn.
  rewrite (run_history es st Hc) by (rewrite He; cbn; lia).
  rewrite He, app_nil_r, <- firstn_map, map_rev.
  apply NoDup_firstn_of. now apply NoDup_rev.
Qed.

Lemma history_keys_differ_witness :
  NoDup (map id (history (fst (run eleven initial)))).
Proof.
  apply (history_keys_differ eleven initial eq_refl eq_refl).
  vm_compute.
  repeat (constructor;
          [cbn [In]; intros H;
           repeat (destruct H as [H|H]; [discriminate|]); exact H|]).
  constructor.
Defined.



(** X17. When the write to the storage fails, the new item is on screen with
    its result, next to the error of the write, while the storage keeps
    the list it had: screen and storage are out of step until the next
    write that succeeds. *)
Theorem failed_write (w : World) (s : State) (store : Storage)
  (data : AnalysisResult) (uuid : jsstring) (e : Thrown) :
  blank s = false ->
  analyzeSymptoms (sdk w) (symptoms s) (selectedImage s)
    (selectedLanguage s) = Returned data ->
  randomUUID w = Returned uuid ->
  setItem w = Raised e ->
  let s' := fst (handleAnalyze w (s, store)) in
  snd (handleAnalyze w (s, store)) = store /\
  shown s' = Some data /\
  error s' = Some (or_else (message e) WENT_WRONG) /\
  exists item,
    id item = uuid /\ result item = data /\
    history s' = firstn 10 (item :: history s).
Proof.
  intros B Ha Hu Hs. cbv zeta. unfold handleAnalyze. unfold blank in B.
  rewrite B, Ha, Hu, Hs.
  cbn [fst snd failed set_pending setResult setHistory setError
       setIsAnalyzing error shown history].
  repeat split. eexists. repeat split. all: reflexivity.
Qed.

Lemma failed_write_witness :
  handleAnalyze full_storage (typed HEADACHE None, None) =
  ({| symptoms := HEADACHE; isAnalyzing := false;
      shown := Some (result (item_of 9)); error := Some QUOTA;
      history := [item_of 9]; selectedLanguage := ENGLISH;
      selectedImage := None |}, None) /\
  snd (handleAnalyze full_storage (typed HEADACHE None, None)) = None.
Proof.
  split; [reflexivity|].
  exact (proj1 (failed_write full_storage (typed HEADACHE None) None _ _ _
                  eq_refl eq_refl eq_refl eq_refl)).
Defined.

Lemma handleAnalyze_storage (w : World) (s : State) (store : Storage) :
  snd (handleAnalyze w (s, store)) = store \/
  exists item,
    snd (handleAnalyze w (s, store)) = Some (firstn 10 (item :: history s)).
Proof.
  unfold handleAnalyze.
  destruct (negb (truthy (trim (symptoms s)))
            && negb (given (selectedImage s))); [now left|].
  destruct (analyzeSymptoms (sdk w) (symptoms s) (selectedImage s)
              (selectedLanguage s)) as [data|e]; [|now left].
  destruct (randomUUID w) as [uuid|e]; [|now left].
  destruct (setItem w) as [u|e]; [|now left].
  right. eexists. reflexivity.
Qed.

Lemma step_stored_capped (st : State * Storage) (e : event) :
  (forall l, snd st = Some l -> List.length l <= 10) ->
  forall l, snd (step st e) = Some l -> List.length l <= 10.
Proof.
  destruct st as [s store]. intros H. destruct e; try exact H.
  - change (step (s, store) (Submit w)) with (handleAnalyze w (s, store)).
    destruct (handleAnalyze_storage w s store) as [E | (item & E)];
      rewrite E; [exact H|].
    intros l El.
    assert (L : l = firstn 10 (item :: history s)) by congruence.
    rewrite L. apply firstn_le_length.
  - intros l El. discriminate El.
Qed.

(** X18. The stored list never holds more than ten items: every list written
    is cut to ten first, whatever the history on screen was. *)
Theorem stored_capped (es : list event) (st : State * Storage) :
  (forall l, snd st = Some l -> List.length l <= 10) ->
  forall l, snd (run es st) = Some l -> List.length l <= 10.
Proof.
  unfold run. revert st. induction es as [|e es IH]; intros st H;
    [exact H|].
  cbn [fold_left]. apply IH. now apply step_stored_capped.
Qed.

Lemma stored_capped_witness :
  snd (run eleven initial)
  = Some (map item_of [11; 10; 9; 8; 7; 6; 5; 4; 3; 2]%N) /\
  List.length (map item_of [11; 10; 9; 8; 7; 6; 5; 4; 3; 2]%N) <= 10.
Proof.
  split; [reflexivity|].
  apply (stored_capped eleven initial); [discriminate | reflexivity].
Defined.

End AppMore.

(** ** The attached image *)

Section UploadMore.
Import JS Gemini Spec App Examples Upload Facts.

Lemma split_on_plain (sep : N) (s : jsstring) :
  all (fun c => negb (unit_eqb c sep)) s -> split_on sep s = (s, []).
Proof.
  unfold all. induction s as [|c s IH]; [reflexivity|].
  cbn [forallb split_on]. intros H. apply andb_true_iff in H as [Hc H].
  rewrite (IH H). apply negb_true_iff in Hc. now rewrite Hc.
Qed.

Lemma split_on_app (sep : N) (p x : jsstring) :
  all (fun c => negb (unit_eqb c sep)) p ->
  split_on sep (p ++ sep :: x) =
  (p, fst (split_on sep x) :: snd (split_on sep x)).
Proof.
  unfold all. induction p as [|c p IH]; cbn [forallb app split_on].
  - intros _. destruct (split_on sep x) as [f fs].
    unfold unit_eqb. now rewrite N.eqb_refl.
  - intros H. apply andb_true_iff in H as [Hc H].
    rewrite (IH H). apply negb_true_iff in Hc. now rewrite Hc.
Qed.

(** X19. Of the data URL that the reader gives, the image kept is what stands
    between the first comma and the second one, or the end: the payload of
    a well-formed data URL, whole.  A result without a comma leaves no
    image, and an empty payload counts as none.  The payload comes back
    from the source of the preview. *)
Theorem image_payload (prefix payload rest : jsstring) (s : State) :
  no_comma prefix -> no_comma payload ->
  selectedImage
    (handleImageUpload (Read (Some (prefix ++ COMMA :: payload))) s)
  = Some payload /\
  selectedImage
    (handleImageUpload
       (Read (Some (prefix ++ COMMA :: payload ++ COMMA :: rest))) s)
  = Some payload /\
  selectedImage (handleImageUpload (Read (Some prefix)) s) = None /\
  given (selectedImage
           (handleImageUpload (Read (Some (prefix ++ COMMA :: payload))) s))
  = truthy payload /\
  second_field (preview_src payload) = Some payload.
Proof.
  intros Hp Hq. unfold no_comma in *.
  cbn [handleImageUpload selectedImage setSelectedImage]. unfold second_field.
  assert (E1 : snd (split_on COMMA (prefix ++ COMMA :: payload)) = [payload]).
  { rewrite (split_on_app COMMA prefix payload Hp).
    now rewrite (split_on_plain COMMA payload Hq). }
  assert (E2 : snd (split_on COMMA
                      (prefix ++ COMMA :: payload ++ COMMA :: rest))
               = payload :: fst (split_on COMMA rest)
                 :: snd (split_on COMMA rest)).
  { rewrite (split_on_app COMMA prefix _ Hp).
    now rewrite (split_on_app COMMA payload rest Hq). }
  assert (E3 : snd (split_on COMMA (preview_src payload)) = [payload]).
  { unfold preview_src.
    change (DATA_JPEG ++ payload)
      with (firstn 22 DATA_JPEG ++ COMMA :: payload).
    rewrite (split_on_app COMMA (firstn 22 DATA_JPEG) payload eq_refl).
    now rewrite (split_on_plain COMMA payload Hq). }
  rewrite E1, E2, E3, (split_on_plain COMMA prefix Hp).
  cbn [fst snd given]. repeat split.
Qed.

Lemma image_payload_witness :
  selectedImage (handleImageUpload (Read (Some data_url)) (typed [] None))
  = Some PAYLOAD /\
  blank (handleImageUpload (Read (Some data_url)) (typed [] None)) = false /\
  blank (handleImageUpload (Read (Some empty_url)) (typed [] None)) = true.
Proof.
  split; [|split; reflexivity].
  exact (proj1 (image_payload (firstn 21 data_url) PAYLOAD []
                  (typed [] None) eq_refl eq_refl)).
Defined.

End UploadMore.

(** ** The recommendation text *)

Section RenderMore.
Import JS Spec Render Facts.

Lemma split_lines_count (s : jsstring) :
  List.length (snd (split_lines s)) = count_occ N.eq_dec s LF.
Proof.
  induction s as [|c s IH]; [reflexivity|].
  cbn [split_lines count_occ]. destruct (split_lines s) as [l ls].
  cbn [snd] in IH. unfold unit_eqb.
  destruct (N.eqb_spec c LF) as [->|Hne].
  - destruct (N.eq_dec LF LF) as [_|F]; [|congruence].
    cbn [snd List.length]. now rewrite IH.
  - destruct (N.eq_dec c LF) as [E|_]; [congruence|]. exact IH.
Qed.

(** A trimmed text does not end with a blank. *)
Lemma trim_last (s x : jsstring) (d : N) :
  trim s = x ++ [d] -> is_space d = false.
Proof.
  unfold trim, trim_end. intros E.
  destruct (drop_while_all is_space (rev (trim_start s))) as [_ H].
  apply (f_equal (@rev N)) in E.
  rewrite rev_involutive, rev_app_distr in E. cbn [rev app] in E.
  now rewrite E in H.
Qed.

Lemma startsWith_sound (p s : jsstring) :
  startsWith p s = true -> exists r, s = p ++ r.
Proof.
  unfold startsWith. destruct (strip_prefix p s) as [r|] eqn:E;
    [|discriminate].
  intros _. exists r. now apply strip_prefix_sound.
Qed.

Lemma format_line_item (line t : jsstring) :
  format_line line = Li t ->
  t <> [] /\ exists x d, t = x ++ [d] /\ is_space d = false.
Proof.
  unfold format_line.
  destruct (startsWith STAR (trim line) || startsWith DASH (trim line))
    eqn:B.
  - intros H. inversion H. subst t. clear H.
    assert (M : exists m, trim line = m :: 32%N :: skipn 2 (trim line)).
    { apply orb_true_iff in B as [B|B]; apply startsWith_sound in B
        as (r & ->); eexists; reflexivity. }
    destruct M as (m & M).
    destruct (skipn 2 (trim line)) as [|c r] eqn:S.
    + exfalso.
      assert (F : is_space 32 = false)
        by exact (trim_last line [m] 32%N M).
      vm_compute in F. discriminate F.
    + rewrite M. cbv beta iota. split; [discriminate|].
      assert (Ne : c :: r <> []) by discriminate.
      destruct (exists_last Ne) as (x & d & E). exists x, d.
      split; [exact E|]. rewrite E in M.
      exact (trim_last line (m :: 32%N :: x) d M).
  - destruct (trim line); discriminate.
Qed.

(** X20. [formatContent] gives one element for each line of the text, none
    lost and none added. *)
Theorem one_element_per_line (content : jsstring) :
  List.length (formatContent content)
  = S (count_occ N.eq_dec content LF).
Proof.
  unfold formatContent. pose proof (split_lines_count content) as H.
  destruct (split_lines content) as [l ls]. cbn [snd] in H.
  rewrite length_map. cbn [List.length]. now rewrite H.
Qed.

(** X21. A list item never shows without text: its text is not empty and does
    not end with a blank.  A bullet that stands alone on its line is shown
    as a paragraph. *)
Theorem list_items_have_text (content t : jsstring) :
  In (Li t) (formatContent content) ->
  t <> [] /\ exists x d, t = x ++ [d] /\ is_space d = false.
Proof.
  unfold formatContent. destruct (split_lines content) as [l ls].
  intros H. apply in_map_iff in H as (line & E & _).
  exact (format_line_item line t E).
Qed.

Lemma list_items_have_text_witness :
  formatContent doctors_text =
  [P [83; 101; 101; 32; 97; 32; 100; 101; 114; 109; 97; 116; 111; 108;
      111; 103; 105; 115; 116; 58]%N;
   Li [67; 105; 116; 121; 32; 67; 108; 105; 110; 105; 99]%N;
   P [45; 32]%N; Spacer; P [42; 78; 111; 116; 101; 42]%N] /\
  [67; 105; 116; 121; 32; 67; 108; 105; 110; 105; 99]%N <> [].
Proof.
  split; [reflexivity|].
  apply (list_items_have_text doctors_text
           [67; 105; 116; 121; 32; 67; 108; 105; 110; 105; 99]%N).
  right. now left.
Defined.

End RenderMore.
